(** * tool-pywisp example servers: trajectory generator and control tick

    A shallow embedding of the two example servers of the repository,

    - [examples/tcp/pc-server/main.cpp]           (module [Host]),
    - [examples/arduino-due/server/arm/server.cpp] (module [Arm]),

    and the properties of their trajectory function [fTrajectory] and of
    their timer callback [fContLoop]. *)

From Stdlib Require Import ZArith QArith Qpower Qfield Lqa Lia List Bool.
From Stdlib Require Import Floats.SpecFloat.
From Stdlib Require Import Qabs.
Import ListNotations.

Local Open Scope Z_scope.

(** * Unsigned machine integers

    [unsigned long] values are integers in [[0, 2^w)]; sums and differences
    are reduced modulo [2^w].  The width is 32 on the SAM3X8E of the
    Arduino Due and 32 or 64 on the host, depending on its ABI. *)

Definition wrap (w x : Z) : Z := x mod 2 ^ w.

Definition in_range (w x : Z) : Prop := 0 <= x < 2 ^ w.

(** * The arithmetic of [double]

    The operations [fTrajectory] applies to [double] values, as an
    interface with two implementations: IEEE-754 binary64 with rounding to
    nearest even, which is what the compiled program computes with, and
    exact rational arithmetic, the real-number reading of the same
    expressions. *)

Class DoubleOps (D : Type) : Type := {
  dadd : D -> D -> D;
  dsub : D -> D -> D;
  dmul : D -> D -> D;
  ddiv : D -> D -> D;
  (** conversion [unsigned long] -> [double] *)
  of_ulong : Z -> D
}.

Module Binary64.
Definition prec : Z := 53.
Definition emax : Z := 1024.

Definition of_Z (z : Z) : spec_float := binary_normalize prec emax z 0 false.

(** The rational a floating-point datum denotes; [None] for infinities
    and NaN. *)
Definition to_Q (f : spec_float) : option Q :=
  match f with
  | S754_zero _ => Some 0%Q
  | S754_finite s m e =>
      Some (inject_Z (cond_Zopp s (Zpos m)) * (2 ^ e))%Q
  | _ => None
  end.

(** ** Rounding to nearest, ties to even

    What the operations of binary64 do to their exact result, written on
    integers: [rnd a k] is [a / 2^k] rounded to the nearest integer, ties
    to the even one, and [rm a k] is the multiple of [2^k] nearest to
    [a]. *)
Definition rnd (a k : Z) : Z :=
  let f := a / 2 ^ k in
  match a mod 2 ^ k ?= 2 ^ (k - 1) with
  | Lt => f
  | Eq => if Z.even f then f else f + 1
  | Gt => f + 1
  end.

Definition rm (a k : Z) : Z := if k <=? 0 then a else rnd a k * 2 ^ k.

(** The exponent of the format for the number [a * 2^e]. *)
Definition cexp (a e : Z) : Z := fexp prec emax (Zdigits2 a + e).

(** The rounded value of [a * 2^e] for [a >= 0], and of a signed
    [z * 2^e]. *)
Definition RQ (a e : Z) : Q := (inject_Z (rm a (cexp a e - e)) * 2 ^ e)%Q.

Definition sRQ (z e : Z) : Q :=
  match z with
  | Z0 => 0%Q
  | Zpos _ => RQ z e
  | Zneg p => (- RQ (Zpos p) e)%Q
  end.

(** A datum whose mantissa fits the format at its exponent. *)
Definition representable (f : spec_float) : Prop :=
  match f with
  | S754_finite _ m e => cexp (Zpos m) e <= e
  | _ => True
  end.

(** The shift register of [SpecFloat] after [j] steps on [m]: the
    quotient, the last bit shifted out, and whether a bit below it was
    set. *)
Definition shr_state (m j : Z) : shr_record :=
  {| shr_m := m / 2 ^ j;
     shr_r := (0 <? j) && Z.odd (m / 2 ^ (j - 1));
     shr_s := (0 <? j) && negb (m mod 2 ^ (j - 1) =? 0) |}.

(** [r] is what an operation returns when its exact result is [v]: a
    representable datum that, if it is a number at all, is the rounding
    of [v]. *)
Definition rounds_to (v : Q) (r : spec_float) : Prop :=
  representable r /\
  exists z e, (inject_Z z * 2 ^ e == v)%Q /\
              forall q, to_Q r = Some q -> (q == sRQ z e)%Q.

(** Zero, a positive number or plus infinity: what the conversion of a
    non-negative integer yields. *)
Definition positive_divisor (y : spec_float) : Prop :=
  match y with
  | S754_zero _ | S754_finite false _ _ | S754_infinity false => True
  | _ => False
  end.
End Binary64.

#[export] Instance binary64_ops : DoubleOps spec_float := {
  dadd := SFadd Binary64.prec Binary64.emax;
  dsub := SFsub Binary64.prec Binary64.emax;
  dmul := SFmul Binary64.prec Binary64.emax;
  ddiv := SFdiv Binary64.prec Binary64.emax;
  of_ulong := Binary64.of_Z
}.

#[export] Instance exact_ops : DoubleOps Q := {
  dadd := Qplus;
  dsub := Qminus;
  dmul := Qmult;
  ddiv := Qdiv;
  of_ulong := inject_Z
}.

(** Reading a [double] as a rational: [val] gives the rational a datum
    denotes, if any, and [reads val x q] says that [x] denotes [q]. *)
Definition reads {D : Type} (val : D -> option Q) (x : D) (q : Q) : Prop :=
  exists q', val x = Some q' /\ (q' == q)%Q.

(** An operation applied to [a] and [b] does not round when its result
    denotes what the rational operation [qop] yields on what [a] and [b]
    denote; likewise for the conversion of an integer. *)
Definition exact_op {D : Type} (val : D -> option Q)
    (op : D -> D -> D) (qop : Q -> Q -> Q) (a b : D) : Prop :=
  forall qa qb, reads val a qa -> reads val b qb -> reads val (op a b) (qop qa qb).

Definition exact_conversion {D : Type} `{DoubleOps D}
    (val : D -> option Q) (z : Z) : Prop :=
  reads val (of_ulong z) (inject_Z z).

(** * Data model *)

(** Modelled from the spec: [struct Transport::benchData] is declared in
    [Transport.h], which is not among the sources.  "BenchData:
    { elapsedTime: monotonically non-decreasing integer (ms or s),
    running }"; the servers reach the elapsed time as the member [lTime],
    which they treat as an [unsigned long], and ask [runExp()] for the
    running flag. *)
Record benchData : Type := mkBench {
  lTime : Z
}.

(** Modelled from the spec: [struct Transport::trajData] is declared in
    [Transport.h], which is not among the sources.
    "TrajectoryDescriptor: { startTime, endTime: integers; startValue,
    endValue: real numbers }" and "TrajectoryOutput: { commandedValue:
    real number }", under the member names the servers use; [D] is the
    type of [double]. *)
Record trajData (D : Type) : Type := mkTraj {
  dStartValue : D;
  lStartTime : Z;
  dEndValue : D;
  lEndTime : Z;
  dOutput : D
}.

Arguments mkTraj {D}.
Arguments dStartValue {D}.
Arguments lStartTime {D}.
Arguments dEndValue {D}.
Arguments lEndTime {D}.
Arguments dOutput {D}.

Definition set_dOutput {D} (td : trajData D) (v : D) : trajData D :=
  mkTraj (dStartValue td) (lStartTime td) (dEndValue td) (lEndTime td) v.

Definition set_lTime (b : benchData) (t : Z) : benchData := mkBench t.

(** What one call of [fTrajectory] leaves behind: the two structures it
    receives by pointer, and the integer divisors of the divisions it
    executed, in program order. *)
Record TrajCall (D : Type) : Type := mkCall {
  bench_after : benchData;
  traj_after : trajData D;
  divisors : list Z
}.

Arguments mkCall {D}.
Arguments bench_after {D}.
Arguments traj_after {D}.
Arguments divisors {D}.

(** There is a division by zero in a call when one of its divisors is 0. *)
Definition divides_by_zero {D} (c : TrajCall D) : Prop := In 0 (divisors c).

(** * The transport object *)

(** Modelled from the spec: [class Transport] is declared in
    [Transport.h], which is not among the sources.  The servers reach its
    public members [_benchData], [_trajData] and [keepaliveTime]
    ("KeepaliveState: { lastActivityTime: integer timestamp }") and call
    its methods.  Everything else it holds (queues, session flags) is the
    component [internals], of a type [P] the servers never look into. *)
Record Transport (D P : Type) : Type := mkTransport {
  _benchData : benchData;
  _trajData : trajData D;
  keepaliveTime : Z;
  internals : P
}.

Arguments mkTransport {D P}.
Arguments _benchData {D P}.
Arguments _trajData {D P}.
Arguments keepaliveTime {D P}.
Arguments internals {D P}.

Definition set_benchData {D P} (t : Transport D P) (b : benchData) : Transport D P :=
  mkTransport b (_trajData t) (keepaliveTime t) (internals t).

Definition set_trajData {D P} (t : Transport D P) (td : trajData D) : Transport D P :=
  mkTransport (_benchData t) td (keepaliveTime t) (internals t).

(** The methods the servers call.  Their bodies are not among the
    sources; a server is a function of them. *)
Record TransportOps (D P : Type) : Type := mkOps {
  handleFrames : Transport D P -> Transport D P;
  runExp : Transport D P -> bool;
  sendData : Transport D P -> Transport D P;
  reset : Transport D P -> Transport D P
}.

Arguments mkOps {D P}.
Arguments handleFrames {D P}.
Arguments runExp {D P}.
Arguments sendData {D P}.
Arguments reset {D P}.

(** [sendData] only reports: it leaves the elapsed time and the keepalive
    stamp as they are. *)
Definition sendData_reports {D P} (ops : TransportOps D P) : Prop :=
  forall t, _benchData (sendData ops t) = _benchData t /\
            keepaliveTime (sendData ops t) = keepaliveTime t.

(** What a tick writes itself and what [sendData] does leave the answer
    of [runExp] unchanged: the experiment is started and stopped by
    commands and resets only. *)
Definition keeps_running {D P} (ops : TransportOps D P) : Prop :=
  forall t b td,
    runExp ops (sendData ops (set_trajData (set_benchData t b) td)) = runExp ops t.

(** * Programs with state and observable events *)

Inductive Event : Type :=
| EvInterrupts                              (* interrupts() *)
| EvHandleFrames                            (* transport.handleFrames() *)
| EvRunExp (running : bool)                 (* transport.runExp() and its answer *)
| EvTrajectory                              (* fTrajectory(...) entered *)
| EvDigitalWrite (pin : Z) (level : bool)   (* digitalWrite(pin, level) *)
| EvAnalogRead (pin : Z) (value : Z)        (* analogRead(pin) and its result *)
| EvSendData                                (* transport.sendData() *)
| EvKeepalive (now last : Z)                (* the keepalive statement, with the
                                               lTime and keepaliveTime it reads *)
| EvReset.                                  (* transport.reset() *)

Definition Prog (S A : Type) : Type := S -> A * S * list Event.

Definition ret {S A} (a : A) : Prog S A := fun s => (a, s, []).

Definition bind {S A B} (m : Prog S A) (k : A -> Prog S B) : Prog S B :=
  fun s =>
    let '(a, s1, e1) := m s in
    let '(b, s2, e2) := k a s1 in
    (b, s2, e1 ++ e2).

Definition emit {S} (e : Event) : Prog S unit := fun s => (tt, s, [e]).
Definition get {S} : Prog S S := fun s => (s, s, []).
Definition modify {S} (f : S -> S) : Prog S unit := fun s => (tt, f s, []).

Definition state_of {S A} (r : A * S * list Event) : S := snd (fst r).
Definition value_of {S A} (r : A * S * list Event) : A := fst (fst r).
Definition events_of {S A} (r : A * S * list Event) : list Event := snd r.

Declare Scope prog_scope.
Delimit Scope prog_scope with prog.
Notation "x <- m ;; k" := (bind m (fun x => k))
  (at level 100, m at next level, right associativity) : prog_scope.
Notation "m ;; k" := (bind m (fun _ => k))
  (at level 100, right associativity) : prog_scope.

Definition is_keepalive (e : Event) : bool :=
  match e with EvKeepalive _ _ => true | _ => false end.

Definition is_reset (e : Event) : bool :=
  match e with EvReset => true | _ => false end.

(** How often the keepalive statement ran, and whether [reset] was called. *)
Definition keepalive_checks (tr : list Event) : nat :=
  length (filter is_keepalive tr).

Definition reset_called (tr : list Event) : bool := existsb is_reset tr.

(** * Host server: [examples/tcp/pc-server/main.cpp] *)

Module Host.

Definition lDt : Z := 1000.

Section Trajectory.
Context {D : Type} `{DoubleOps D}.
Variable w : Z.

(** [void fTrajectory(benchData *_benchData, trajData *_trajData)] *)
Definition fTrajectory (b : benchData) (td : trajData D) : TrajCall D :=
  if lTime b <? lStartTime td then
    mkCall b (set_dOutput td (dStartValue td)) []
  else if lTime b <? lEndTime td then
    let den := wrap w (lEndTime td - lStartTime td) in
    let dM := ddiv (dsub (dEndValue td) (dStartValue td)) (of_ulong den) in
    let dN := dsub (dEndValue td) (dmul dM (of_ulong (lEndTime td))) in
    mkCall b (set_dOutput td (dadd (dmul dM (of_ulong (lTime b))) dN)) [den]
  else
    mkCall b (set_dOutput td (dEndValue td)) [].

(** The value a call commands. *)
Definition commanded (b : benchData) (td : trajData D) : D :=
  dOutput (traj_after (fTrajectory b td)).

(** The interpolation formula of the specification, in the same
    arithmetic:
    [startValue + (endValue - startValue) * (t - startTime) / (endTime - startTime)]. *)
Definition interpolation (b : benchData) (td : trajData D) : D :=
  dadd (dStartValue td)
       (ddiv (dmul (dsub (dEndValue td) (dStartValue td))
                   (of_ulong (lTime b - lStartTime td)))
             (of_ulong (lEndTime td - lStartTime td))).

(** The fraction of the ramp that has elapsed, as a rational. *)
Definition progress (b : benchData) (td : trajData D) : Q :=
  (inject_Z (lTime b - lStartTime td) / inject_Z (lEndTime td - lStartTime td))%Q.

(** The interpolation branch of a call is exact for [val] when none of
    the three conversions and six operations it performs rounds. *)
Definition exact_call (val : D -> option Q) (b : benchData) (td : trajData D) : Prop :=
  let n := of_ulong (wrap w (lEndTime td - lStartTime td)) in
  let diff := dsub (dEndValue td) (dStartValue td) in
  let dM := ddiv diff n in
  let prod := dmul dM (of_ulong (lEndTime td)) in
  let dN := dsub (dEndValue td) prod in
  let scaled := dmul dM (of_ulong (lTime b)) in
  exact_conversion val (wrap w (lEndTime td - lStartTime td)) /\
  exact_conversion val (lEndTime td) /\
  exact_conversion val (lTime b) /\
  exact_op val dsub Qminus (dEndValue td) (dStartValue td) /\
  exact_op val ddiv Qdiv diff n /\
  exact_op val dmul Qmult dM (of_ulong (lEndTime td)) /\
  exact_op val dsub Qminus (dEndValue td) prod /\
  exact_op val dmul Qmult dM (of_ulong (lTime b)) /\
  exact_op val dadd Qplus scaled dN.
End Trajectory.

Section Tick.
Context {D : Type} `{DoubleOps D} {P : Type}.
Variable w : Z.
Variable ops : TransportOps D P.

(** [transport->_benchData.lTime += lDt] *)
Definition advance (t : Transport D P) : Transport D P :=
  set_benchData t (set_lTime (_benchData t) (wrap w (lTime (_benchData t) + lDt))).

(** [fTrajectory(&transport->_benchData, &transport->_trajData)] *)
Definition call_fTrajectory (t : Transport D P) : Transport D P :=
  let c := fTrajectory w (_benchData t) (_trajData t) in
  set_trajData (set_benchData t (bench_after c)) (traj_after c).

(** [void fContLoop(Transport *transport)] *)
Definition fContLoop : Prog (Transport D P) unit :=
  (emit EvHandleFrames ;; modify (handleFrames ops) ;;
   t <- get ;;
   emit (EvRunExp (runExp ops t)) ;;
   if runExp ops t then
     modify advance ;;
     emit EvTrajectory ;; modify call_fTrajectory ;;
     emit EvSendData ;; modify (sendData ops)
   else
     ret tt)%prog.
End Tick.

End Host.

(** * Embedded server: [examples/arduino-due/server/arm/server.cpp] *)

Module Arm.

Definition lDt : Z := 100.
Definition lKeepalive : Z := 500.

(** [unsigned long] has 32 bits on the Arduino Due. *)
Definition ULONG_BITS : Z := 32.

(** Pin numbers.  [A11] comes from the board's variant header (65 on the
    Due); no property below depends on its value. *)
Definition A11 : Z := 65.
Definition Ausgang_A : Z := 22.
Definition Ausgang_B : Z := 23.
Definition Ausgang_C : Z := 24.
Definition Ausgang_D : Z := 25.
Definition Eingang_E : Z := A11.
Definition HIGH : bool := true.
Definition LOW : bool := false.

(** [int yGes=186; int xGes=246;], never assigned afterwards. *)
Definition yGes : Z := 186.
Definition xGes : Z := 246.

(** ** [float] and its conversions *)
Module Binary32.
Definition prec : Z := 24.
Definition emax : Z := 128.
Definition of_Z (z : Z) : spec_float := binary_normalize prec emax z 0 false.
End Binary32.

(** [float] -> [double]: exact, only the representation is renormalised. *)
Definition widen (f : spec_float) : spec_float :=
  match f with
  | S754_finite s m e =>
      binary_normalize Binary64.prec Binary64.emax (cond_Zopp s (Zpos m)) e s
  | _ => f
  end.

(** [double] -> [float]: rounds to nearest even. *)
Definition narrow (d : spec_float) : spec_float :=
  match d with
  | S754_finite s m e =>
      binary_normalize Binary32.prec Binary32.emax (cond_Zopp s (Zpos m)) e s
  | _ => d
  end.

(** An integral [double] literal such as [278.0], and the literal
    [0.001], the [double] nearest to 1/1000. *)
Definition lit (z : Z) : spec_float := Binary64.of_Z z.
Definition milli : spec_float := ddiv (lit 1) (lit 1000).

(** [((float)yGes*((float)sensorValue-278.0)/(691.0-278.0)-yGes/2+2)*0.001] *)
Definition calibrate_y (sensor : Z) : spec_float :=
  dmul (dadd (dsub (ddiv (dmul (widen (Binary32.of_Z yGes))
                               (dsub (widen (Binary32.of_Z sensor)) (lit 278)))
                         (dsub (lit 691) (lit 278)))
                   (lit (Z.quot yGes 2)))
             (lit 2))
       milli.

(** [(-(float)xGes*((float)sensorValue-258.0)/(718.0-258.0)+xGes/2+6)*0.001] *)
Definition calibrate_x (sensor : Z) : spec_float :=
  dmul (dadd (dadd (ddiv (dmul (widen (SFopp (Binary32.of_Z xGes)))
                               (dsub (widen (Binary32.of_Z sensor)) (lit 258)))
                         (dsub (lit 718) (lit 258)))
                   (lit (Z.quot xGes 2)))
             (lit 6))
       milli.

Section Sketch.
Context {P : Type}.
Variable ops : TransportOps spec_float P.

(** The sketch's global variables, and the analog input it samples:
    [adc n] is the result of the [n]-th conversion since start-up and
    [conversions] counts those done so far. *)
Record Sketch : Type := mkSketch {
  sensorValue : Z;
  x : spec_float;
  y : spec_float;
  transport : Transport spec_float P;
  adc : nat -> Z;
  conversions : nat
}.

Definition set_sensorValue (v : Z) (s : Sketch) : Sketch :=
  mkSketch v (x s) (y s) (transport s) (adc s) (conversions s).
Definition set_x (v : spec_float) (s : Sketch) : Sketch :=
  mkSketch (sensorValue s) v (y s) (transport s) (adc s) (conversions s).
Definition set_y (v : spec_float) (s : Sketch) : Sketch :=
  mkSketch (sensorValue s) (x s) v (transport s) (adc s) (conversions s).
Definition on_transport (f : Transport spec_float P -> Transport spec_float P)
    (s : Sketch) : Sketch :=
  mkSketch (sensorValue s) (x s) (y s) (f (transport s)) (adc s) (conversions s).

Definition digitalWrite (pin : Z) (level : bool) : Prog Sketch unit :=
  emit (EvDigitalWrite pin level).

Definition analogRead (pin : Z) : Prog Sketch Z :=
  fun s =>
    let v := adc s (conversions s) in
    (v,
     mkSketch (sensorValue s) (x s) (y s) (transport s) (adc s) (S (conversions s)),
     [EvAnalogRead pin v]).

(** [float Messung()] *)
Definition Messung : Prog Sketch spec_float :=
  (digitalWrite Ausgang_B HIGH ;;
   digitalWrite Ausgang_D LOW ;;
   v <- analogRead Eingang_E ;;
   modify (set_sensorValue v) ;;
   s <- get ;;
   modify (set_y (calibrate_y (sensorValue s))) ;;
   digitalWrite Ausgang_B LOW ;;
   digitalWrite Ausgang_D HIGH ;;
   v <- analogRead Eingang_E ;;
   modify (set_sensorValue v) ;;
   s <- get ;;
   modify (set_x (calibrate_x (sensorValue s))) ;;
   s <- get ;;
   ret (narrow (x s)))%prog.

(** [void fTrajectory(benchData *_benchData, trajData *_trajData)] *)
Definition fTrajectory (b : benchData) (td : trajData spec_float)
    : Prog Sketch (benchData * trajData spec_float) :=
  (r <- Messung ;;
   modify (set_x (widen r)) ;;
   s <- get ;;
   ret (b, set_dOutput td (x s)))%prog.

(** [transport._benchData.lTime += lDt] *)
Definition advance (t : Transport spec_float P) : Transport spec_float P :=
  set_benchData t
    (set_lTime (_benchData t) (wrap ULONG_BITS (lTime (_benchData t) + lDt))).

(** [lKeepalive != 0 && lTime > keepaliveTime + lKeepalive] *)
Definition expired (keepalive now last : Z) : bool :=
  negb (keepalive =? 0) && (now >? wrap ULONG_BITS (last + keepalive)).

(** [void fContLoop()], for a keepalive time [keepalive]. *)
Definition fContLoop_with (keepalive : Z) : Prog Sketch unit :=
  (emit EvInterrupts ;;
   s <- get ;;
   emit (EvRunExp (runExp ops (transport s))) ;;
   if runExp ops (transport s) then
     modify (on_transport advance) ;;
     emit EvTrajectory ;;
     s <- get ;;
     r <- fTrajectory (_benchData (transport s)) (_trajData (transport s)) ;;
     modify (on_transport (fun t => set_trajData (set_benchData t (fst r)) (snd r))) ;;
     emit EvSendData ;; modify (on_transport (sendData ops)) ;;
     s <- get ;;
     emit (EvKeepalive (lTime (_benchData (transport s))) (keepaliveTime (transport s))) ;;
     if expired keepalive (lTime (_benchData (transport s))) (keepaliveTime (transport s))
     then emit EvReset ;; modify (on_transport (reset ops))
     else ret tt
   else
     ret tt)%prog.

Definition fContLoop : Prog Sketch unit := fContLoop_with lKeepalive.

(** [n] consecutive timer interrupts: the state they end in and
    everything they did. *)
Fixpoint ticks (keepalive : Z) (n : nat) (s : Sketch) : Sketch * list Event :=
  match n with
  | O => (s, [])
  | S n' =>
      let r := fContLoop_with keepalive s in
      let r' := ticks keepalive n' (state_of r) in
      (fst r', events_of r ++ snd r')
  end.

(** The transport object of a running tick at the moment its keepalive
    statement is reached: time advanced, output written, data sent. *)
Definition reported (s : Sketch) : Transport spec_float P :=
  sendData ops
    (set_trajData (advance (transport s))
       (set_dOutput (_trajData (transport s)) (widen (value_of (Messung s))))).
End Sketch.

Arguments mkSketch {P}.
Arguments sensorValue {P}.
Arguments x {P}.
Arguments y {P}.
Arguments transport {P}.
Arguments adc {P}.
Arguments conversions {P}.

(** ** The calibration, read exactly

    The two calibration expressions over the rationals, with the integer
    divisions [yGes/2] and [xGes/2] as in the source. *)
Definition exact_y (sensor : Z) : Q :=
  ((inject_Z yGes * (inject_Z sensor - 278) / (691 - 278)
    - inject_Z (Z.quot yGes 2) + 2) * (1 # 1000))%Q.

Definition exact_x (sensor : Z) : Q :=
  ((- inject_Z xGes * (inject_Z sensor - 258) / (718 - 258)
    + inject_Z (Z.quot xGes 2) + 6) * (1 # 1000))%Q.

(** The results of a 12-bit converter, the finest resolution
    [analogRead] has on the Due. *)
Definition ADC_LEVELS : nat := 4096.
Definition readings : list Z := map Z.of_nat (seq 0 ADC_LEVELS).

(** Decision procedures on floating-point data read as rationals:
    [f] lies strictly below [g]; [f] lies within [eps] of [q]. *)
Definition Qltb (a b : Q) : bool := (Qnum a * QDen b <? Qnum b * QDen a)%Z.

Definition below (f g : spec_float) : bool :=
  match Binary64.to_Q f, Binary64.to_Q g with
  | Some a, Some b => Qltb a b
  | _, _ => false
  end.

Definition within (eps : Q) (f : spec_float) (q : Q) : bool :=
  match Binary64.to_Q f with
  | Some a => Qltb (Qabs (a - q)) eps
  | None => false
  end.

(** ** The status LED: [block] and [blink] *)

(** [LED_BUILTIN] and [OUTPUT] come from the board's headers (13 and 1 on
    the Due); no property below depends on their values. *)
Definition LED_BUILTIN : Z := 13.
Definition OUTPUT : Z := 1.

Inductive LedEvent : Type :=
| LedPinMode (pin mode : Z)                 (* pinMode(pin, mode) *)
| LedWrite (pin : Z) (level : bool)         (* digitalWrite(pin, level) *)
| LedDelay (ms : Z).                        (* delay(ms) *)

(** [void blink()], on the global [ledOn]. *)
Definition blink (ledOn : bool) : bool * list LedEvent :=
  let ledOn' := negb ledOn in
  (ledOn', [LedWrite LED_BUILTIN ledOn']).

(** [n] calls of [blink] in a row. *)
Fixpoint blinks (n : nat) (ledOn : bool) : bool * list LedEvent :=
  match n with
  | O => (ledOn, [])
  | S n' =>
      let r := blink ledOn in
      let r' := blinks n' (fst r) in
      (fst r', snd r ++ snd r')
  end.

(** Where the control of [block] is: at the test of the [for] loop with
    counter [k], at the test of [while (1)], or past the end of the
    function. *)
Inductive BlockPoint : Type :=
| AtFor (k : Z)
| AtWhile
| BlockReturned.

(** One step of [void block(int i)] from a point: the next point and
    what the step did. *)
Definition block_step (i : Z) (p : BlockPoint) : BlockPoint * list LedEvent :=
  match p with
  | AtFor k =>
      if k <? i then
        (AtFor (k + 1),
         [LedWrite LED_BUILTIN HIGH; LedDelay 1000; LedWrite LED_BUILTIN LOW])
      else (AtWhile, [])
  | AtWhile => (AtWhile, [])
  | BlockReturned => (BlockReturned, [])
  end.

Fixpoint block_from (i : Z) (steps : nat) (p : BlockPoint)
    : BlockPoint * list LedEvent :=
  match steps with
  | O => (p, [])
  | S n =>
      let r := block_step i p in
      let r' := block_from i n (fst r) in
      (fst r', snd r ++ snd r')
  end.

(** [void block(int i)], run for a number of steps: [pinMode], then the
    loops. *)
Definition block (i : Z) (steps : nat) : BlockPoint * list LedEvent :=
  let r := block_from i steps (AtFor 0) in
  (fst r, LedPinMode LED_BUILTIN OUTPUT :: snd r).

(** One cycle of the LED in [block]: on, a second, off. *)
Definition flash : list LedEvent :=
  [LedWrite LED_BUILTIN HIGH; LedDelay 1000; LedWrite LED_BUILTIN LOW].

End Arm.

(** * The frame transport of the specification

    A concrete [Transport] to run the servers on. *)

Module SpecTransport.

Section Model.
Context {D : Type} `{DoubleOps D}.

(** Modelled from the spec: the frame type is not among the sources.
    "Frame: opaque byte sequence ... not interpreted by the core"; a
    telemetry frame stands here as the two values it is built from, its
    byte encoding staying inside the transport. *)
Record Frame : Type := mkFrame {
  frame_time : Z;
  frame_value : D
}.

(** Modelled from the spec: the private state of the Frame Transport,
    which "maintains two FIFO queues of opaque frames (inbound, outbound)"
    and knows "whether a command session currently authorizes
    control-loop activity". *)
Record Session : Type := mkSession {
  running : bool;
  inbound : list Frame;
  outbound : list Frame
}.

(** Modelled from the spec: [Transport::handleFrames] is not among the
    sources.  "On each tick, drains/consumes pending inbound frames";
    the keepalive state is "updated whenever a valid inbound frame is
    processed". *)
Definition handleFrames (t : Transport D Session) : Transport D Session :=
  match inbound (internals t) with
  | [] => t
  | _ :: _ =>
      mkTransport (_benchData t) (_trajData t) (lTime (_benchData t))
        (mkSession (running (internals t)) [] (outbound (internals t)))
  end.

(** Modelled from the spec: [Transport::runExp] is not among the
    sources.  "isRunning(): reflects whether a command session
    currently authorizes control-loop activity". *)
Definition runExp (t : Transport D Session) : bool :=
  running (internals t).

(** Modelled from the spec: [Transport::sendData] is not among the
    sources.  The control step "enqueues an outbound telemetry frame";
    queues are "append-only from the producer side". *)
Definition sendData (t : Transport D Session) : Transport D Session :=
  mkTransport (_benchData t) (_trajData t) (keepaliveTime t)
    (mkSession (running (internals t)) (inbound (internals t))
       (outbound (internals t)
          ++ [mkFrame (lTime (_benchData t)) (dOutput (_trajData t))])).

(** Modelled from the spec: [Transport::reset] is not among the
    sources.  "Sets benchData.running = false, clears/reinitializes
    BenchData and any in-progress TrajectoryDescriptor"; on reset
    "elapsedTime -> 0, running -> false". *)
Definition reset (t : Transport D Session) : Transport D Session :=
  mkTransport (mkBench 0)
    (mkTraj (of_ulong 0) 0 (of_ulong 0) 0 (of_ulong 0))
    0
    (mkSession false (inbound (internals t)) (outbound (internals t))).

(** Modelled from the spec: the four methods above, as the method table
    of a [Transport]. *)
Definition ops : TransportOps D Session :=
  mkOps handleFrames runExp sendData reset.
End Model.

Arguments Frame D : clear implicits.
Arguments Session D : clear implicits.

End SpecTransport.

(** * Example data *)

Module Examples.
Definition zero : spec_float := Binary64.of_Z 0.
Definition one : spec_float := Binary64.of_Z 1.

(** A step at time 5: start and end time coincide. *)
Definition step_at_5 : trajData spec_float := mkTraj zero 5 one 5 zero.

(** A ramp from 0.0 to 1.0 between times 1 and 4. *)
Definition ramp_1_4 : trajData spec_float := mkTraj zero 1 one 4 zero.

(** A ramp from 0.0 to 3.0 between times 1 and 4: slope 1, intercept -1,
    no rounding anywhere. *)
Definition unit_slope : trajData spec_float :=
  mkTraj zero 1 (Binary64.of_Z 3) 4 zero.

(** A ramp from 3.0 down to 1.0 between times 2^55 and 2^55 + 2, where
    consecutive integers are no longer distinct [double] values. *)
Definition late_ramp : trajData spec_float :=
  mkTraj (Binary64.of_Z 3) (2 ^ 55) (Binary64.of_Z 1) (2 ^ 55 + 2) zero.

(** A ramp from 0.0 to 10.0 between times 0 and 1000; its slope, 0.01,
    is not a binary64 number. *)
Definition slow_ramp : trajData spec_float :=
  mkTraj zero 0 (Binary64.of_Z 10) 1000 zero.

(** A ramp from 1.0 to 10.0 between times 5000000000000003 and
    5000000000000005, both below 2^53, so that every time converts to
    [double] without rounding. *)
Definition aged_ramp : trajData spec_float :=
  mkTraj one 5000000000000003 (Binary64.of_Z 10) 5000000000000005 zero.

(** A ramp between the most negative and the largest finite [double],
    between times 1 and 4: the difference of its values overflows. *)
Definition max_double : spec_float := S754_finite false (2 ^ 53 - 1) 971.
Definition full_swing : trajData spec_float :=
  mkTraj (SFopp max_double) 1 max_double 4 zero.

(** An embedded sketch at start-up whose analog input reads [v] at every
    conversion; its transport has no internals. *)
Definition bare_transport : Transport spec_float unit :=
  mkTransport (mkBench 0) ramp_1_4 0 tt.
Definition sketch_reading (v : Z) : @Arm.Sketch unit :=
  Arm.mkSketch 0 zero zero bare_transport (fun _ => v) 0.

(** A transport of the specification with empty queues, at elapsed time
    [now], with last inbound activity at [last]. *)
Definition session (running : bool) (now last : Z)
    : Transport spec_float (SpecTransport.Session spec_float) :=
  mkTransport (mkBench now) ramp_1_4 last (SpecTransport.mkSession running [] []).

(** A descriptor whose end time lies before its start time. *)
Definition inverted : trajData spec_float := mkTraj zero 9 one 4 zero.

(** A sketch whose conversions read [first], [second], [first], ... *)
Definition sketch_readings (first second : Z) : @Arm.Sketch unit :=
  Arm.mkSketch 0 zero zero bare_transport
    (fun n => if Nat.even n then first else second) 0.

(** The embedded sketch on that transport; every conversion reads 300. *)
Definition rig (running : bool) (now last : Z)
    : @Arm.Sketch (SpecTransport.Session spec_float) :=
  Arm.mkSketch 0 zero zero (session running now last) (fun _ => 300) 0.
End Examples.

(** * Proof automation *)

(** On concrete binary64 data, exactness of an operation is checked by
    evaluation. *)
Ltac exact_by_evaluation :=
  match goal with
  | |- exact_op _ _ _ _ _ =>
      let qa := fresh "qa" in let qb := fresh "qb" in
      let Ha := fresh "Ha" in let Hb := fresh "Hb" in
      let Ea := fresh "Ea" in let Eb := fresh "Eb" in
      intros qa qb (? & Ha & Ea) (? & Hb & Eb);
      vm_compute in Ha; vm_compute in Hb;
      injection Ha as <-; injection Hb as <-;
      eexists; split; [vm_compute; reflexivity | ];
      rewrite <- Ea, <- Eb; vm_compute; reflexivity
  | |- exact_conversion _ _ =>
      eexists; split; [vm_compute; reflexivity | vm_compute; reflexivity]
  | |- reads _ _ _ =>
      eexists; split; [vm_compute; reflexivity | vm_compute; reflexivity]
  end.

(** * Properties of the host trajectory function *)

Lemma wrap_small (w x : Z) : in_range w x -> wrap w x = x.
Proof. unfold in_range, wrap. intros Hx. now apply Z.mod_small. Qed.

Section HostTrajectory.
Context {D : Type} `{DoubleOps D}.
Variable w : Z.

Lemma fTrajectory_hold (b : benchData) (td : trajData D) :
  lTime b < lStartTime td ->
  Host.fTrajectory w b td = mkCall b (set_dOutput td (dStartValue td)) [].
Proof.
  intros Hlt. unfold Host.fTrajectory.
  apply Z.ltb_lt in Hlt. now rewrite Hlt.
Qed.

Lemma fTrajectory_ramp (b : benchData) (td : trajData D) :
  lStartTime td <= lTime b < lEndTime td ->
  Host.fTrajectory w b td =
    let den := wrap w (lEndTime td - lStartTime td) in
    let dM := ddiv (dsub (dEndValue td) (dStartValue td)) (of_ulong den) in
    let dN := dsub (dEndValue td) (dmul dM (of_ulong (lEndTime td))) in
    mkCall b (set_dOutput td (dadd (dmul dM (of_ulong (lTime b))) dN)) [den].
Proof.
  intros [Hge Hlt]. unfold Host.fTrajectory.
  apply Z.ltb_ge in Hge. apply Z.ltb_lt in Hlt.
  now rewrite Hge, Hlt.
Qed.

Lemma fTrajectory_post (b : benchData) (td : trajData D) :
  lStartTime td <= lTime b -> lEndTime td <= lTime b ->
  Host.fTrajectory w b td = mkCall b (set_dOutput td (dEndValue td)) [].
Proof.
  intros Hs He. unfold Host.fTrajectory.
  apply Z.ltb_ge in Hs. apply Z.ltb_ge in He.
  now rewrite Hs, He.
Qed.

(** The three branches cover every call. *)
Lemma fTrajectory_cases (b : benchData) (td : trajData D) :
  lTime b < lStartTime td \/
  lStartTime td <= lTime b < lEndTime td \/
  (lStartTime td <= lTime b /\ lEndTime td <= lTime b).
Proof. lia. Qed.

(** Whatever the descriptor, as long as its times are [unsigned long]
    values, the divisor of the interpolation branch is not zero. *)
Lemma fTrajectory_never_divides_by_zero (b : benchData) (td : trajData D) :
  in_range w (lStartTime td) -> in_range w (lEndTime td) ->
  ~ divides_by_zero (Host.fTrajectory w b td).
Proof.
  intros Hs He. unfold divides_by_zero.
  destruct (fTrajectory_cases b td) as [Hc | [Hc | [Hc1 Hc2]]].
  - rewrite fTrajectory_hold by assumption. simpl. tauto.
  - rewrite fTrajectory_ramp by assumption. cbv zeta. simpl.
    intros [Hz | []]. unfold wrap, in_range in *.
    rewrite Z.mod_small in Hz by lia. lia.
  - rewrite fTrajectory_post by assumption. simpl. tauto.
Qed.
End HostTrajectory.

(** ** Coinciding start and end time *)

(** C1, as the code has it: when [lStartTime = lEndTime] a call executes no
    division at all, hence none by zero, and it commands [dStartValue]
    while the elapsed time is below that common time and [dEndValue] from
    then on. *)
Theorem C1_equal_times {D : Type} `{DoubleOps D}
    (w : Z) (b : benchData) (td : trajData D) :
  lStartTime td = lEndTime td ->
  divisors (Host.fTrajectory w b td) = [] /\
  ~ divides_by_zero (Host.fTrajectory w b td) /\
  Host.commanded w b td =
    if lTime b <? lStartTime td then dStartValue td else dEndValue td.
Proof.
  intros Heq. unfold Host.commanded, divides_by_zero.
  destruct (Z.ltb_spec (lTime b) (lStartTime td)) as [Hlt | Hge].
  - rewrite fTrajectory_hold by assumption. simpl. tauto.
  - rewrite fTrajectory_post by lia. simpl. tauto.
Qed.

Lemma C1_equal_times_witness :
  lStartTime Examples.step_at_5 = lEndTime Examples.step_at_5 /\
  divisors (Host.fTrajectory 64 (mkBench 7) Examples.step_at_5) = [] /\
  ~ divides_by_zero (Host.fTrajectory 64 (mkBench 7) Examples.step_at_5) /\
  Host.commanded 64 (mkBench 7) Examples.step_at_5 =
    if lTime (mkBench 7) <? lStartTime Examples.step_at_5
    then dStartValue Examples.step_at_5 else dEndValue Examples.step_at_5.
Proof.
  split; [reflexivity | ].
  apply (C1_equal_times 64 (mkBench 7) Examples.step_at_5). reflexivity.
Defined.

(** C1 fails as stated: with start and end time both 5, at elapsed time 0
    the call commands the start value 0.0, not the end value 1.0. *)
Lemma C1_counterexample :
  lStartTime Examples.step_at_5 = lEndTime Examples.step_at_5 /\
  Host.commanded 64 (mkBench 0) Examples.step_at_5 = Examples.zero /\
  Host.commanded 64 (mkBench 0) Examples.step_at_5 <> dEndValue Examples.step_at_5.
Proof.
  split; [reflexivity | ]. split; [reflexivity | ].
  vm_compute. discriminate.
Qed.

(** ** Holding the end points *)

(** C4: for a descriptor with [lStartTime < lEndTime], the commanded value
    is the start value before the start time and the end value from the
    end time on; both are copies, not computed values. *)
Theorem C4_hold_endpoints {D : Type} `{DoubleOps D}
    (w : Z) (b : benchData) (td : trajData D) :
  lStartTime td < lEndTime td ->
  (lTime b < lStartTime td -> Host.commanded w b td = dStartValue td) /\
  (lEndTime td <= lTime b -> Host.commanded w b td = dEndValue td).
Proof.
  intros Hse. unfold Host.commanded. split; intros Ht.
  - now rewrite fTrajectory_hold.
  - rewrite fTrajectory_post by lia. reflexivity.
Qed.

Lemma C4_hold_endpoints_witness :
  lStartTime Examples.ramp_1_4 < lEndTime Examples.ramp_1_4 /\
  (lTime (mkBench 9) < lStartTime Examples.ramp_1_4 ->
     Host.commanded 64 (mkBench 9) Examples.ramp_1_4 = dStartValue Examples.ramp_1_4) /\
  (lEndTime Examples.ramp_1_4 <= lTime (mkBench 9) ->
     Host.commanded 64 (mkBench 9) Examples.ramp_1_4 = dEndValue Examples.ramp_1_4).
Proof.
  split; [reflexivity | ].
  apply (C4_hold_endpoints 64 (mkBench 9) Examples.ramp_1_4). reflexivity.
Defined.

(** ** The ramp when no operation rounds *)

Lemma reads_eq {D : Type} (val : D -> option Q) (x : D) (q q' : Q) :
  reads val x q -> (q == q')%Q -> reads val x q'.
Proof.
  intros (q0 & Hval & Hq) Heq. exists q0. split; [exact Hval | ].
  now rewrite Hq.
Qed.

Lemma reads_unique {D : Type} (val : D -> option Q) (x : D) (q q' : Q) :
  reads val x q -> reads val x q' -> (q == q')%Q.
Proof.
  intros (q0 & Hval & Hq) (q1 & Hval' & Hq').
  rewrite Hval in Hval'. injection Hval' as <-.
  now rewrite <- Hq, <- Hq'.
Qed.

Lemma inject_Z_nonzero (z : Z) : z <> 0 -> ~ (inject_Z z == 0)%Q.
Proof.
  intros Hz. change 0%Q with (inject_Z 0). now rewrite inject_Z_injective.
Qed.

Section ExactRamp.
Context {D : Type} `{DoubleOps D}.
Variable val : D -> option Q.
Variable w : Z.
Variable td : trajData D.
Variables vs ve : Q.
Hypothesis start_in_range : in_range w (lStartTime td).
Hypothesis end_in_range : in_range w (lEndTime td).
Hypothesis start_value : reads val (dStartValue td) vs.
Hypothesis end_value : reads val (dEndValue td) ve.

Local Open Scope Q_scope.

(** Inside the ramp, a call whose operations are exact commands the value
    of the interpolation formula. *)
Lemma commanded_exact (b : benchData) :
  (lStartTime td <= lTime b < lEndTime td)%Z ->
  Host.exact_call w val b td ->
  reads val (Host.commanded w b td) (vs + (ve - vs) * Host.progress b td).
Proof.
  intros Ht Hex. unfold Host.commanded.
  rewrite fTrajectory_ramp by assumption. cbv zeta. simpl.
  unfold Host.exact_call, exact_conversion in Hex. cbv zeta in Hex.
  destruct Hex as (Hn & He & Hnow & Hsub & Hdiv & Hmul & Hsub' & Hmul' & Hadd).
  pose proof (Hsub _ _ end_value start_value) as Hdiff.
  pose proof (Hdiv _ _ Hdiff Hn) as HdM.
  pose proof (Hmul _ _ HdM He) as Hprod.
  pose proof (Hsub' _ _ end_value Hprod) as HdN.
  pose proof (Hmul' _ _ HdM Hnow) as Hscaled.
  pose proof (Hadd _ _ Hscaled HdN) as Hsum.
  apply (reads_eq _ _ _ _ Hsum).
  assert (Hw : wrap w (lEndTime td - lStartTime td) = (lEndTime td - lStartTime td)%Z)
    by (apply wrap_small; unfold in_range in *; lia).
  rewrite Hw. unfold Host.progress.
  pose proof (inject_Z_nonzero (lEndTime td - lStartTime td) ltac:(lia)) as Hd.
  set (d := inject_Z (lEndTime td - lStartTime td)) in *.
  assert (Hq : inject_Z (lTime b - lStartTime td)
               == inject_Z (lTime b) - inject_Z (lEndTime td) + d).
  { unfold d. unfold Z.sub. rewrite !inject_Z_plus, !inject_Z_opp. ring. }
  rewrite Hq. field. exact Hd.
Qed.

Lemma progress_bounds (b : benchData) :
  (lStartTime td <= lTime b <= lEndTime td)%Z ->
  (lStartTime td < lEndTime td)%Z ->
  0 <= Host.progress b td <= 1.
Proof.
  intros Ht Hse. unfold Host.progress.
  assert (Hd : 0 < inject_Z (lEndTime td - lStartTime td)).
  { change 0 with (inject_Z 0). rewrite <- Zlt_Qlt. lia. }
  split.
  - apply Qle_shift_div_l; [exact Hd | ].
    rewrite Qmult_0_l. change 0 with (inject_Z 0). rewrite <- Zle_Qle. lia.
  - apply Qle_shift_div_r; [exact Hd | ].
    rewrite Qmult_1_l. rewrite <- Zle_Qle. lia.
Qed.

Lemma progress_monotone (b b' : benchData) :
  (lStartTime td < lEndTime td)%Z ->
  (lTime b <= lTime b')%Z ->
  Host.progress b td <= Host.progress b' td.
Proof.
  intros Hse Hle. unfold Host.progress.
  assert (Hd : 0 < inject_Z (lEndTime td - lStartTime td)).
  { change 0 with (inject_Z 0). rewrite <- Zlt_Qlt. lia. }
  unfold Qdiv. apply Qmult_le_compat_r.
  - rewrite <- Zle_Qle. lia.
  - apply Qlt_le_weak, Qinv_lt_0_compat, Hd.
Qed.
End ExactRamp.

(** Rational arithmetic never rounds. *)
Lemma exact_op_rational (op : Q -> Q -> Q) (a b : Q) :
  Proper (Qeq ==> Qeq ==> Qeq) op -> exact_op Some op op a b.
Proof.
  intros Hop qa qb (a' & Ha & Ea) (b' & Hb & Eb).
  injection Ha as <-. injection Hb as <-.
  exists (op a b). split; [reflexivity | ]. now rewrite Ea, Eb.
Qed.

Lemma exact_ops_exact (w : Z) (b : benchData) (td : trajData Q) :
  Host.exact_call w Some b td.
Proof.
  unfold Host.exact_call. cbv zeta.
  repeat split;
    try (apply exact_op_rational; simpl; typeclasses eauto);
    (eexists; split; [reflexivity | reflexivity]).
Qed.

Lemma reads_rational (x q : Q) : reads Some x q <-> (x == q)%Q.
Proof.
  split.
  - intros (x' & Hx & Hq). now injection Hx as <-.
  - intros Hq. exists x. split; [reflexivity | exact Hq].
Qed.

(** ** The start of the ramp *)

(** C5, as the code has it: for in-range times with
    [lStartTime < lEndTime], the call at [lTime = lStartTime] takes the
    interpolation branch and computes [dM * lTime + dN] with [dN] derived
    from the end value; whenever none of the operations of that
    computation rounds, the result denotes the same number as the start
    value, and in rational arithmetic, where none ever rounds, it equals
    the start value.  (When they round, the result can miss the start
    value; an instance follows the theorem.) *)
Theorem C5_start_value_exact {D : Type} `{DoubleOps D}
    (val : D -> option Q) (vs ve : Q) (w : Z) (b : benchData) (td : trajData D) :
  in_range w (lStartTime td) -> in_range w (lEndTime td) ->
  lStartTime td < lEndTime td ->
  lTime b = lStartTime td ->
  reads val (dStartValue td) vs -> reads val (dEndValue td) ve ->
  Host.exact_call w val b td ->
  divisors (Host.fTrajectory w b td) = [lEndTime td - lStartTime td] /\
  reads val (Host.commanded w b td) vs /\
  (forall (bq : benchData) (tq : trajData Q),
     in_range w (lStartTime tq) -> in_range w (lEndTime tq) ->
     lStartTime tq < lEndTime tq -> lTime bq = lStartTime tq ->
     (Host.commanded w bq tq == dStartValue tq)%Q).
Proof.
  assert (Hgen : forall (D' : Type) (H' : DoubleOps D') (val' : D' -> option Q)
                        (vs' ve' : Q) (b' : benchData) (td' : trajData D'),
            in_range w (lStartTime td') -> in_range w (lEndTime td') ->
            lStartTime td' < lEndTime td' -> lTime b' = lStartTime td' ->
            reads val' (dStartValue td') vs' -> reads val' (dEndValue td') ve' ->
            Host.exact_call w val' b' td' ->
            reads val' (Host.commanded w b' td') vs').
  { intros D' H' val' vs' ve' b' td' Hs He Hse Ht Hvs Hve Hex.
    apply (reads_eq _ _ _ _
             (commanded_exact val' w td' vs' ve' Hs He Hvs Hve b' ltac:(lia) Hex)).
    unfold Host.progress. rewrite Ht, Z.sub_diag.
    unfold Qdiv. rewrite Qmult_0_l, Qmult_0_r, Qplus_0_r. reflexivity. }
  intros Hs He Hse Ht Hvs Hve Hex. split; [ | split].
  - rewrite fTrajectory_ramp by lia. cbv zeta. simpl.
    now rewrite wrap_small by (unfold in_range in *; lia).
  - now apply (Hgen D _ val vs ve).
  - intros bq tq Hqs Hqe Hqse Hqt.
    apply reads_rational.
    apply (Hgen Q exact_ops Some (dStartValue tq) (dEndValue tq) bq tq
             Hqs Hqe Hqse Hqt);
      [now apply reads_rational | now apply reads_rational | ].
    apply exact_ops_exact.
Qed.

Lemma C5_start_value_exact_witness :
  in_range 64 (lStartTime Examples.unit_slope) /\
  in_range 64 (lEndTime Examples.unit_slope) /\
  lStartTime Examples.unit_slope < lEndTime Examples.unit_slope /\
  lTime (mkBench 1) = lStartTime Examples.unit_slope /\
  reads Binary64.to_Q (dStartValue Examples.unit_slope) 0 /\
  reads Binary64.to_Q (dEndValue Examples.unit_slope) 3 /\
  Host.exact_call 64 Binary64.to_Q (mkBench 1) Examples.unit_slope /\
  divisors (Host.fTrajectory 64 (mkBench 1) Examples.unit_slope) = [4 - 1] /\
  reads Binary64.to_Q (Host.commanded 64 (mkBench 1) Examples.unit_slope) 0.
Proof.
  assert (Hs : in_range 64 (lStartTime Examples.unit_slope))
    by (unfold in_range; simpl; lia).
  assert (He : in_range 64 (lEndTime Examples.unit_slope))
    by (unfold in_range; simpl; lia).
  assert (Hvs : reads Binary64.to_Q (dStartValue Examples.unit_slope) 0)
    by exact_by_evaluation.
  assert (Hve : reads Binary64.to_Q (dEndValue Examples.unit_slope) 3)
    by exact_by_evaluation.
  assert (Hex : Host.exact_call 64 Binary64.to_Q (mkBench 1) Examples.unit_slope).
  { unfold Host.exact_call. cbv zeta. repeat split; exact_by_evaluation. }
  split; [exact Hs | ]. split; [exact He | ].
  split; [reflexivity | ]. split; [reflexivity | ].
  split; [exact Hvs | ]. split; [exact Hve | ]. split; [exact Hex | ].
  destruct (C5_start_value_exact Binary64.to_Q 0 3 64 (mkBench 1) Examples.unit_slope
              Hs He eq_refl eq_refl Hvs Hve Hex) as (Hdiv & Hval & _).
  split; [exact Hdiv | exact Hval].
Defined.

(** C5 fails in binary64: for the ramp from 0.0 to 1.0 between times 1 and
    4, the call at elapsed time 1 commands 2^-54, not 0.0.
    ([dM] is 1/3 rounded down, [dN = 1 - 4 * dM] is exact, and
    [dM + dN] is the rounding error of [dM], scaled.) *)
Lemma C5_counterexample :
  lStartTime Examples.ramp_1_4 < lEndTime Examples.ramp_1_4 /\
  lTime (mkBench 1) = lStartTime Examples.ramp_1_4 /\
  Host.commanded 64 (mkBench 1) Examples.ramp_1_4
    = S754_finite false 4503599627370496 (-106) /\
  Host.commanded 64 (mkBench 1) Examples.ramp_1_4
    <> dStartValue Examples.ramp_1_4.
Proof.
  split; [reflexivity | ]. split; [reflexivity | ].
  split; [vm_compute; reflexivity | ].
  vm_compute. discriminate.
Qed.

(** * Rounding in binary64 is monotone *)

Section Rounding.
Import Binary64.

(** ** Integers: rounding to a multiple of a power of two *)

Lemma pow2_pos (k : Z) : 0 <= k -> 0 < 2 ^ k.
Proof. intros Hk. apply Z.pow_pos_nonneg; lia. Qed.

Lemma pow2_split (k : Z) : 0 < k -> 2 ^ k = 2 * 2 ^ (k - 1).
Proof.
  intros Hk. replace k with (Z.succ (k - 1)) at 1 by lia.
  rewrite Z.pow_succ_r by lia. reflexivity.
Qed.

Lemma rnd_bounds (a k : Z) :
  0 < k -> a / 2 ^ k <= rnd a k <= a / 2 ^ k + 1.
Proof.
  intros Hk. unfold rnd.
  destruct (a mod 2 ^ k ?= 2 ^ (k - 1)); try lia.
  destruct (Z.even (a / 2 ^ k)); lia.
Qed.

Lemma rnd_mono (a b k : Z) : 0 < k -> a <= b -> rnd a k <= rnd b k.
Proof.
  intros Hk Hab.
  pose proof (pow2_pos k ltac:(lia)) as Hp.
  pose proof (Z.div_le_mono a b (2 ^ k) Hp Hab) as Hq.
  destruct (Z.eq_dec (a / 2 ^ k) (b / 2 ^ k)) as [Heq | Hne].
  - assert (Hr : a mod 2 ^ k <= b mod 2 ^ k).
    { pose proof (Z.div_mod a (2 ^ k) ltac:(lia)).
      pose proof (Z.div_mod b (2 ^ k) ltac:(lia)). nia. }
    unfold rnd. rewrite <- Heq.
    destruct (Z.compare_spec (a mod 2 ^ k) (2 ^ (k - 1)));
      destruct (Z.compare_spec (b mod 2 ^ k) (2 ^ (k - 1)));
      destruct (Z.even (a / 2 ^ k)); lia.
  - pose proof (rnd_bounds a k Hk). pose proof (rnd_bounds b k Hk). lia.
Qed.

Lemma rnd_exact (b k : Z) : 0 < k -> rnd (b * 2 ^ k) k = b.
Proof.
  intros Hk. pose proof (pow2_pos k ltac:(lia)) as Hp.
  pose proof (pow2_pos (k - 1) ltac:(lia)) as Hh.
  unfold rnd. rewrite Z.mod_mul, Z.div_mul by lia.
  destruct (Z.compare_spec 0 (2 ^ (k - 1))); lia.
Qed.

Lemma rnd_shift (a k j : Z) :
  0 < k -> 0 <= j -> rnd (a * 2 ^ j) (k + j) = rnd a k.
Proof.
  intros Hk Hj.
  pose proof (pow2_pos k ltac:(lia)) as Hp.
  pose proof (pow2_pos j Hj) as Hpj.
  unfold rnd.
  rewrite Z.pow_add_r by lia.
  rewrite Z.div_mul_cancel_r by lia.
  rewrite Z.mul_mod_distr_r by lia.
  replace (k + j - 1) with (k - 1 + j) by lia.
  rewrite Z.pow_add_r by lia.
  assert (Hc : (a mod 2 ^ k * 2 ^ j ?= 2 ^ (k - 1) * 2 ^ j)
               = (a mod 2 ^ k ?= 2 ^ (k - 1))).
  { destruct (Z.compare_spec (a mod 2 ^ k) (2 ^ (k - 1))) as [He | Hl | Hg].
    - rewrite He. apply Z.compare_refl.
    - apply Z.compare_lt_iff. nia.
    - apply Z.compare_gt_iff. nia. }
  rewrite Hc. reflexivity.
Qed.

Lemma rnd_nonneg (a k : Z) : 0 < k -> 0 <= a -> 0 <= rnd a k.
Proof.
  intros Hk Ha. pose proof (rnd_bounds a k Hk).
  pose proof (Z.div_pos a (2 ^ k) Ha (pow2_pos k ltac:(lia))). lia.
Qed.

Lemma rm_mono (a b k : Z) : a <= b -> rm a k <= rm b k.
Proof.
  intros Hab. unfold rm. destruct (Z.leb_spec k 0) as [Hk | Hk]; [exact Hab | ].
  apply Z.mul_le_mono_nonneg_r; [pose proof (pow2_pos k); lia | ].
  now apply rnd_mono.
Qed.

Lemma rm_exact (b k j : Z) : k <= j -> 0 <= j -> rm (b * 2 ^ j) k = b * 2 ^ j.
Proof.
  intros Hkj Hj. unfold rm. destruct (Z.leb_spec k 0) as [Hk | Hk]; [reflexivity | ].
  replace j with (j - k + k) at 1 by lia.
  rewrite Z.pow_add_r, Z.mul_assoc by lia.
  rewrite rnd_exact by lia.
  rewrite <- Z.mul_assoc, <- Z.pow_add_r by lia.
  now replace (j - k + k) with j by lia.
Qed.

Lemma rm_nonneg (a k : Z) : 0 <= a -> 0 <= rm a k.
Proof.
  intros Ha. unfold rm. destruct (Z.leb_spec k 0) as [Hk | Hk]; [exact Ha | ].
  apply Z.mul_nonneg_nonneg; [now apply rnd_nonneg | ].
  pose proof (pow2_pos k). lia.
Qed.

(** Shifting the number left and the position right changes nothing. *)
Lemma rm_shift (a k j : Z) : 0 <= j -> rm (a * 2 ^ j) (k + j) = rm a k * 2 ^ j.
Proof.
  intros Hj. unfold rm at 2.
  destruct (Z.leb_spec k 0) as [Hk | Hk].
  - apply rm_exact; lia.
  - unfold rm. destruct (Z.leb_spec (k + j) 0); [lia | ].
    rewrite rnd_shift by lia. rewrite Z.pow_add_r by lia. ring.
Qed.

(** ** The number of binary digits *)

Lemma digits2_pos_lower (p : positive) :
  2 ^ (Zpos (digits2_pos p) - 1) <= Zpos p.
Proof.
  induction p as [p IH | p IH | ]; cbn [digits2_pos].
  - rewrite Pos2Z.inj_succ.
    replace (Z.succ (Zpos (digits2_pos p)) - 1)
      with (Z.succ (Zpos (digits2_pos p) - 1)) by lia.
    rewrite Z.pow_succ_r by lia. lia.
  - rewrite Pos2Z.inj_succ.
    replace (Z.succ (Zpos (digits2_pos p)) - 1)
      with (Z.succ (Zpos (digits2_pos p) - 1)) by lia.
    rewrite Z.pow_succ_r by lia. lia.
  - reflexivity.
Qed.

Lemma digits2_pos_upper (p : positive) :
  Zpos p < 2 ^ Zpos (digits2_pos p).
Proof.
  induction p as [p IH | p IH | ]; cbn [digits2_pos].
  - rewrite Pos2Z.inj_succ, Z.pow_succ_r by lia. lia.
  - rewrite Pos2Z.inj_succ, Z.pow_succ_r by lia. lia.
  - reflexivity.
Qed.

Lemma Zdigits2_bounds (a : Z) :
  0 < a -> 0 < Zdigits2 a /\ 2 ^ (Zdigits2 a - 1) <= a < 2 ^ Zdigits2 a.
Proof.
  intros Ha. destruct a as [ | p | p]; try lia. cbn [Zdigits2].
  pose proof (digits2_pos_lower p). pose proof (digits2_pos_upper p). lia.
Qed.

Lemma Zdigits2_unique (a d : Z) :
  0 < a -> 2 ^ (d - 1) <= a < 2 ^ d -> Zdigits2 a = d.
Proof.
  intros Ha [Hl Hu]. destruct (Zdigits2_bounds a Ha) as (Hd & Hl' & Hu').
  assert (Hd0 : 0 < d).
  { destruct (Z_lt_le_dec 0 d) as [H | H]; [exact H | ].
    assert (2 ^ d <= 2 ^ 0) by (apply Z.pow_le_mono_r; lia).
    change (2 ^ 0) with 1 in *. lia. }
  destruct (Z.lt_trichotomy (Zdigits2 a) d) as [Hlt | [Heq | Hgt]]; [ | exact Heq | ].
  - assert (2 ^ Zdigits2 a <= 2 ^ (d - 1)) by (apply Z.pow_le_mono_r; lia). lia.
  - assert (2 ^ d <= 2 ^ (Zdigits2 a - 1)) by (apply Z.pow_le_mono_r; lia). lia.
Qed.

Lemma Zdigits2_mono (a b : Z) : 0 < a -> a <= b -> Zdigits2 a <= Zdigits2 b.
Proof.
  intros Ha Hab.
  destruct (Zdigits2_bounds a Ha) as (Hd & Hl & Hu).
  destruct (Zdigits2_bounds b ltac:(lia)) as (Hd' & Hl' & Hu').
  destruct (Z_le_gt_dec (Zdigits2 a) (Zdigits2 b)) as [H | H]; [exact H | ].
  assert (2 ^ Zdigits2 b <= 2 ^ (Zdigits2 a - 1)) by (apply Z.pow_le_mono_r; lia).
  lia.
Qed.

Lemma Zdigits2_shift (a j : Z) :
  0 < a -> 0 <= j -> Zdigits2 (a * 2 ^ j) = Zdigits2 a + j.
Proof.
  intros Ha Hj. destruct (Zdigits2_bounds a Ha) as (Hd & Hl & Hu).
  pose proof (pow2_pos j Hj) as Hp.
  apply Zdigits2_unique; [nia | ].
  replace (Zdigits2 a + j - 1) with (Zdigits2 a - 1 + j) by lia.
  rewrite !Z.pow_add_r by lia. nia.
Qed.

(** ** Rounding is monotone, on integers with a common exponent *)

Lemma cexp_mono (a b e : Z) : 0 < a -> a <= b -> cexp a e <= cexp b e.
Proof.
  intros Ha Hab. unfold cexp, fexp.
  pose proof (Zdigits2_mono a b Ha Hab). lia.
Qed.

Lemma rm_cexp_mono (a b e : Z) :
  0 < a -> a <= b -> rm a (cexp a e - e) <= rm b (cexp b e - e).
Proof.
  intros Ha Hab.
  pose proof (cexp_mono a b e Ha Hab) as Hc.
  destruct (Z.eq_dec (cexp a e) (cexp b e)) as [Heq | Hne].
  - rewrite Heq. now apply rm_mono.
  - assert (Hlt : cexp a e < cexp b e) by lia.
    destruct (Zdigits2_bounds a Ha) as (Hd & Hl & Hu).
    destruct (Zdigits2_bounds b ltac:(lia)) as (Hd' & Hl' & Hu').
    assert (Hdd : Zdigits2 a < Zdigits2 b).
    { unfold cexp, fexp in Hlt. lia. }
    assert (Hcb : cexp b e = Zdigits2 b + e - prec).
    { unfold cexp, fexp in *. lia. }
    set (B := 2 ^ (Zdigits2 b - 1)) in *.
    assert (HaB : a <= B).
    { assert (2 ^ Zdigits2 a <= B) by (apply Z.pow_le_mono_r; lia). lia. }
    assert (HB : B = 1 * 2 ^ (Zdigits2 b - 1)) by (unfold B; lia).
    apply Z.le_trans with B.
    + apply Z.le_trans with (rm B (cexp a e - e)); [now apply rm_mono | ].
      rewrite HB at 1. rewrite rm_exact; [lia | | lia].
      rewrite Hcb in Hlt. unfold prec in *. lia.
    + apply Z.le_trans with (rm B (cexp b e - e)); [ | now apply rm_mono].
      rewrite HB at 2. rewrite rm_exact; [lia | | lia].
      rewrite Hcb. unfold prec. lia.
Qed.

(** ** Dyadic rationals *)

Local Open Scope Q_scope.

Lemma Qpow2_pos (e : Z) : 0 < 2 ^ e.
Proof. apply Qpower_0_lt. reflexivity. Qed.

Lemma Qpow2_split (e g : Z) :
  (g <= e)%Z -> 2 ^ e == inject_Z (2 ^ (e - g)) * 2 ^ g.
Proof.
  intros Hge. replace e with (e - g + g)%Z at 1 by lia.
  rewrite Qpower_plus by discriminate.
  rewrite Zpower_Qpower by lia. reflexivity.
Qed.

Lemma dyadic_shift (a e g : Z) :
  (g <= e)%Z -> inject_Z a * 2 ^ e == inject_Z (a * 2 ^ (e - g)) * 2 ^ g.
Proof.
  intros Hge. rewrite (Qpow2_split e g Hge), inject_Z_mult. ring.
Qed.

Lemma dyadic_le (a b e : Z) :
  inject_Z a * 2 ^ e <= inject_Z b * 2 ^ e <-> (a <= b)%Z.
Proof.
  pose proof (Qpow2_pos e) as Hp. rewrite Zle_Qle. split; intros H.
  - apply Qmult_le_r with (2 ^ e); assumption.
  - apply Qmult_le_r; assumption.
Qed.

Lemma dyadic_eq (a b e : Z) :
  inject_Z a * 2 ^ e == inject_Z b * 2 ^ e <-> a = b.
Proof.
  split; [ | now intros ->]. intros H.
  apply Z.le_antisymm; apply (dyadic_le _ _ e); rewrite H; apply Qle_refl.
Qed.

Lemma RQ_nonneg (a e : Z) : (0 <= a)%Z -> 0 <= RQ a e.
Proof.
  intros Ha. unfold RQ. apply Qmult_le_0_compat.
  - change 0 with (inject_Z 0). rewrite <- Zle_Qle. now apply rm_nonneg.
  - apply Qlt_le_weak, Qpow2_pos.
Qed.

Lemma RQ_representable (a e : Z) :
  (cexp a e <= e)%Z -> RQ a e = inject_Z a * 2 ^ e.
Proof.
  intros Hc. unfold RQ, rm.
  destruct (Z.leb_spec (cexp a e - e) 0); [reflexivity | lia].
Qed.

(** The rounded value depends on the number only, not on how it is
    written. *)
Lemma RQ_shift (a e j : Z) :
  (0 < a)%Z -> (0 <= j)%Z -> RQ (a * 2 ^ j) (e - j) == RQ a e.
Proof.
  intros Ha Hj. unfold RQ.
  assert (Hc : cexp (a * 2 ^ j) (e - j) = cexp a e).
  { unfold cexp. rewrite Zdigits2_shift by assumption. f_equal. lia. }
  rewrite Hc.
  replace (cexp a e - (e - j))%Z with (cexp a e - e + j)%Z by lia.
  rewrite rm_shift by assumption.
  rewrite (dyadic_shift (rm a (cexp a e - e)) e (e - j)) by lia.
  now replace (e - (e - j))%Z with j by lia.
Qed.

Lemma RQ_mono (a b e e' : Z) :
  (0 < a)%Z -> inject_Z a * 2 ^ e <= inject_Z b * 2 ^ e' -> RQ a e <= RQ b e'.
Proof.
  intros Ha Hle.
  set (g := Z.min e e').
  assert (Hb : (0 < b)%Z).
  { destruct (Z_lt_le_dec 0 b) as [H | H]; [exact H | exfalso].
    assert (inject_Z b * 2 ^ e' <= 0).
    { rewrite <- (Qmult_0_l (2 ^ e')). change 0 with (inject_Z 0).
      apply dyadic_le. exact H. }
    assert (0 < inject_Z a * 2 ^ e).
    { rewrite <- (Qmult_0_l (2 ^ e)). change 0 with (inject_Z 0).
      apply Qmult_lt_compat_r; [apply Qpow2_pos | ]. now rewrite <- Zlt_Qlt. }
    lra. }
  rewrite (dyadic_shift a e g), (dyadic_shift b e' g) in Hle by (unfold g; lia).
  apply dyadic_le in Hle.
  rewrite <- (RQ_shift a e (e - g)) by (unfold g; lia).
  rewrite <- (RQ_shift b e' (e' - g)) by (unfold g; lia).
  replace (e - (e - g))%Z with g by lia.
  replace (e' - (e' - g))%Z with g by lia.
  unfold RQ. apply dyadic_le. apply rm_cexp_mono; [ | exact Hle].
  pose proof (pow2_pos (e - g) ltac:(unfold g; lia)). nia.
Qed.

Lemma sRQ_mono (z z' e e' : Z) :
  inject_Z z * 2 ^ e <= inject_Z z' * 2 ^ e' -> sRQ z e <= sRQ z' e'.
Proof.
  intros Hle.
  pose proof (Qpow2_pos e) as Hp. pose proof (Qpow2_pos e') as Hp'.
  assert (Hsign : forall (p : positive) (x : Z), 0 < inject_Z (Zpos p) * 2 ^ x).
  { intros p x. apply Qmult_lt_0_compat; [reflexivity | apply Qpow2_pos]. }
  assert (Hneg : forall (p : positive) (x : Z),
             inject_Z (Zneg p) * 2 ^ x == - (inject_Z (Zpos p) * 2 ^ x)).
  { intros p x. change (Zneg p) with (- Zpos p)%Z. rewrite inject_Z_opp. ring. }
  destruct z as [ | p | p], z' as [ | p' | p']; cbn [sRQ].
  - apply Qle_refl.
  - apply RQ_nonneg. lia.
  - exfalso. rewrite Hneg, Qmult_0_l in Hle. pose proof (Hsign p' e'). lra.
  - exfalso. rewrite Qmult_0_l in Hle. pose proof (Hsign p e). lra.
  - apply RQ_mono; [lia | exact Hle].
  - exfalso. rewrite Hneg in Hle. pose proof (Hsign p e). pose proof (Hsign p' e'). lra.
  - pose proof (RQ_nonneg (Zpos p) e ltac:(lia)). lra.
  - pose proof (RQ_nonneg (Zpos p) e ltac:(lia)).
    pose proof (RQ_nonneg (Zpos p') e' ltac:(lia)). lra.
  - rewrite !Hneg in Hle.
    assert (H : inject_Z (Zpos p') * 2 ^ e' <= inject_Z (Zpos p) * 2 ^ e) by lra.
    pose proof (RQ_mono (Zpos p') (Zpos p) e' e ltac:(lia) H). lra.
Qed.

Lemma sRQ_representable (s : bool) (m : positive) (e : Z) :
  (cexp (Zpos m) e <= e)%Z ->
  sRQ (cond_Zopp s (Zpos m)) e == inject_Z (cond_Zopp s (Zpos m)) * 2 ^ e.
Proof.
  intros Hc. destruct s; cbn [cond_Zopp Z.opp sRQ].
  - rewrite RQ_representable by assumption.
    change (Zneg m) with (- Zpos m)%Z. rewrite inject_Z_opp. ring.
  - now rewrite RQ_representable.
Qed.

(** ** The shift-and-round of [SpecFloat] computes [rnd] *)

Local Open Scope Z_scope.

Lemma iter_pos_nat {A : Type} (f : A -> A) (p : positive) : forall x,
  SpecFloat.iter_pos f p x = Nat.iter (Pos.to_nat p) f x.
Proof.
  induction p as [p IH | p IH | ]; intros x; cbn [SpecFloat.iter_pos].
  - rewrite !IH, Pos2Nat.inj_xI.
    replace (S (2 * Pos.to_nat p)) with (Pos.to_nat p + (Pos.to_nat p + 1))%nat by lia.
    rewrite !Nat.iter_add. reflexivity.
  - rewrite !IH, Pos2Nat.inj_xO.
    replace (2 * Pos.to_nat p)%nat with (Pos.to_nat p + Pos.to_nat p)%nat by lia.
    rewrite Nat.iter_add. reflexivity.
  - reflexivity.
Qed.


Lemma mod_pow2_succ (m j : Z) :
  0 <= j -> m mod 2 ^ (j + 1) = m mod 2 ^ j + 2 ^ j * (if Z.odd (m / 2 ^ j) then 1 else 0).
Proof.
  intros Hj. pose proof (pow2_pos j Hj).
  rewrite Z.pow_add_r by lia. change (2 ^ 1) with 2.
  rewrite Z.rem_mul_r by lia. now rewrite Zmod_odd.
Qed.

Lemma shr_1_state (m j : Z) :
  0 <= m -> 0 <= j -> shr_1 (shr_state m j) = shr_state m (j + 1).
Proof.
  intros Hm Hj. pose proof (pow2_pos j Hj) as Hp.
  assert (Hq : 0 <= m / 2 ^ j) by (apply Z.div_pos; lia).
  assert (Hdiv : m / 2 ^ (j + 1) = Z.div2 (m / 2 ^ j)).
  { rewrite Z.pow_add_r, <- Z.div_div by lia. now rewrite Z.div2_div. }
  assert (Hs : (0 <? j) && Z.odd (m / 2 ^ (j - 1))
               || (0 <? j) && negb (m mod 2 ^ (j - 1) =? 0)
               = negb (m mod 2 ^ j =? 0)).
  { destruct (Z.ltb_spec 0 j) as [Hpos | Hz]; cbn [andb orb].
    - pose proof (mod_pow2_succ m (j - 1) ltac:(lia)) as Hmod.
      replace (j - 1 + 1) with j in Hmod by lia.
      pose proof (Z.mod_pos_bound m (2 ^ (j - 1)) (pow2_pos (j - 1) ltac:(lia))).
      pose proof (pow2_pos (j - 1) ltac:(lia)).
      destruct (Z.odd (m / 2 ^ (j - 1))); cbn [orb].
      + symmetry. apply negb_true_iff, Z.eqb_neq. lia.
      + f_equal. rewrite Hmod. f_equal. lia.
    - replace j with 0 by lia. change (2 ^ 0) with 1. now rewrite Z.mod_1_r. }
  unfold shr_state at 2.
  replace (0 <? j + 1) with true by (symmetry; apply Z.ltb_lt; lia).
  replace (j + 1 - 1) with j by lia. cbn [andb].
  rewrite Hdiv, <- Hs.
  unfold shr_state, shr_1.
  destruct (m / 2 ^ j) as [ | [q | q | ] | q]; try lia; reflexivity.
Qed.

Lemma iter_shr_1 (m : Z) (n : nat) :
  0 <= m -> Nat.iter n shr_1 (shr_state m 0) = shr_state m (Z.of_nat n).
Proof.
  intros Hm. induction n as [ | n IH]; [reflexivity | ].
  rewrite Nat.iter_succ, IH, shr_1_state by lia. f_equal. lia.
Qed.

Lemma shr_state_0 (m : Z) : shr_state m 0 = shr_record_of_loc m loc_Exact.
Proof. unfold shr_state. cbn. now rewrite Z.div_1_r. Qed.

Lemma shr_exact (m e k : Z) :
  0 <= m -> 0 < k ->
  shr (shr_record_of_loc m loc_Exact) e k = (shr_state m k, e + k).
Proof.
  intros Hm Hk. destruct k as [ | p | p]; try lia. cbn [shr].
  rewrite iter_pos_nat, <- shr_state_0, iter_shr_1 by assumption.
  now rewrite positive_nat_Z.
Qed.

Lemma round_shr_state (m k : Z) :
  0 <= m -> 0 < k ->
  round_nearest_even (shr_m (shr_state m k)) (loc_of_shr_record (shr_state m k))
    = rnd m k.
Proof.
  intros Hm Hk.
  pose proof (mod_pow2_succ m (k - 1) ltac:(lia)) as Hmod.
  replace (k - 1 + 1) with k in Hmod by lia.
  pose proof (Z.mod_pos_bound m (2 ^ (k - 1)) (pow2_pos (k - 1) ltac:(lia))) as Hlow.
  unfold shr_state, rnd.
  replace (0 <? k) with true by (symmetry; apply Z.ltb_lt; lia).
  cbn [andb shr_m loc_of_shr_record].
  destruct (Z.odd (m / 2 ^ (k - 1)));
    destruct (Z.eqb_spec (m mod 2 ^ (k - 1)) 0) as [Hz | Hnz];
    cbn [negb round_nearest_even].
  - replace (m mod 2 ^ k ?= 2 ^ (k - 1)) with Eq
      by (symmetry; apply Z.compare_eq_iff; lia). reflexivity.
  - replace (m mod 2 ^ k ?= 2 ^ (k - 1)) with Gt
      by (symmetry; apply Z.compare_gt_iff; lia). reflexivity.
  - replace (m mod 2 ^ k ?= 2 ^ (k - 1)) with Lt
      by (symmetry; apply Z.compare_lt_iff; lia). reflexivity.
  - replace (m mod 2 ^ k ?= 2 ^ (k - 1)) with Lt
      by (symmetry; apply Z.compare_lt_iff; lia). reflexivity.
Qed.

Lemma rnd_le_pow2 (m k : Z) :
  0 < m -> 0 < k -> rnd m k <= 2 ^ Z.max (Zdigits2 m - k) 0.
Proof.
  intros Hm Hk. destruct (Zdigits2_bounds m Hm) as (Hd & Hl & Hu).
  set (n := Z.max (Zdigits2 m - k) 0).
  assert (Hle : m <= 2 ^ n * 2 ^ k).
  { rewrite <- Z.pow_add_r by lia.
    assert (2 ^ Zdigits2 m <= 2 ^ (n + k)) by (apply Z.pow_le_mono_r; lia). lia. }
  rewrite <- (rnd_exact (2 ^ n) k Hk). now apply rnd_mono.
Qed.

(** ** What [binary_round_aux] returns *)

Lemma cexp_ge_emin (a e : Z) : emin prec emax <= cexp a e.
Proof. unfold cexp, fexp. lia. Qed.

Lemma shr_none (mrs : shr_record) (e k : Z) : k <= 0 -> shr mrs e k = (mrs, e).
Proof. intros Hk. destruct k; try reflexivity; lia. Qed.

Lemma binary_round_aux_spec (s : bool) (m : positive) (e : Z) :
  match binary_round_aux prec emax s (Zpos m) e loc_Exact with
  | S754_zero s' => s' = s /\ (RQ (Zpos m) e == 0)%Q
  | S754_finite s' M X =>
      s' = s /\ (inject_Z (Zpos M) * 2 ^ X == RQ (Zpos m) e)%Q /\
      cexp (Zpos M) X <= X
  | S754_infinity s' => s' = s
  | S754_nan => False
  end.
Proof.
  pose proof (eq_refl : prec = 53) as Hprec.
  unfold binary_round_aux, shr_fexp.
  change (fexp prec emax (Zdigits2 (Zpos m) + e)) with (cexp (Zpos m) e).
  destruct (Z_le_gt_dec (cexp (Zpos m) e) e) as [Hk | Hk].
  - rewrite shr_none by lia.
    cbn [shr_record_of_loc shr_m loc_of_shr_record round_nearest_even].
    change (fexp prec emax (Zdigits2 (Zpos m) + e)) with (cexp (Zpos m) e).
    rewrite shr_none by lia. cbn [shr_record_of_loc shr_m].
    destruct (e <=? emax - prec); [ | reflexivity].
    split; [reflexivity | ]. split; [now rewrite RQ_representable | exact Hk].
  - rewrite shr_exact by lia. rewrite round_shr_state by lia.
    replace (e + (cexp (Zpos m) e - e)) with (cexp (Zpos m) e) by lia.
    assert (HRQ : (RQ (Zpos m) e
                   == inject_Z (rnd (Zpos m) (cexp (Zpos m) e - e))
                      * 2 ^ cexp (Zpos m) e)%Q).
    { unfold RQ, rm. destruct (Z.leb_spec (cexp (Zpos m) e - e) 0); [lia | ].
      now rewrite (dyadic_shift _ (cexp (Zpos m) e) e) by lia. }
    pose proof (rnd_nonneg (Zpos m) (cexp (Zpos m) e - e) ltac:(lia) ltac:(lia)) as HM1.
    pose proof (rnd_le_pow2 (Zpos m) (cexp (Zpos m) e - e) ltac:(lia) ltac:(lia)) as Hup.
    pose proof (cexp_ge_emin (Zpos m) e) as Hmin.
    set (E := cexp (Zpos m) e) in *.
    set (M1 := rnd (Zpos m) (E - e)) in *.
    change (fexp prec emax (Zdigits2 M1 + E)) with (cexp M1 E).
    destruct (Z_le_gt_dec (cexp M1 E) E) as [Hk2 | Hk2].
    + rewrite shr_none by lia. cbn [shr_record_of_loc shr_m].
      destruct M1 as [ | M | M] eqn:HM; try lia.
      * split; [reflexivity | ]. rewrite HRQ. apply Qmult_0_l.
      * destruct (E <=? emax - prec); [ | reflexivity].
        split; [reflexivity | ]. split; [now rewrite HRQ | exact Hk2].
    + assert (Hpos : 0 < M1).
      { destruct (Z.eq_dec M1 0) as [Hz | Hnz]; [ | lia].
        rewrite Hz in Hk2. unfold cexp, fexp in Hk2. cbn [Zdigits2] in Hk2. lia. }
      destruct (Zdigits2_bounds M1 Hpos) as (Hd & Hl & Hu).
      assert (Hdig : prec < Zdigits2 M1) by (unfold cexp, fexp in Hk2; lia).
      assert (HM : M1 = 2 ^ prec).
      { assert (2 ^ prec <= 2 ^ (Zdigits2 M1 - 1)) by (apply Z.pow_le_mono_r; lia).
        assert (2 ^ Z.max (Zdigits2 (Zpos m) - (E - e)) 0 <= 2 ^ prec).
        { apply Z.pow_le_mono_r; [lia | ]. unfold E, cexp, fexp in *. lia. }
        lia. }
      rewrite HM in *.
      assert (Hc : cexp (2 ^ prec) E = E + 1).
      { unfold cexp, fexp in *. change (Zdigits2 (2 ^ prec)) with (prec + 1) in *.
        lia. }
      rewrite Hc. replace (E + 1 - E) with 1 by lia.
      cbn [shr shr_record_of_loc SpecFloat.iter_pos]. 
      change (shr_m (shr_1 {| shr_m := 2 ^ prec; shr_r := false; shr_s := false |}))
        with (2 ^ (prec - 1)).
      change (2 ^ (prec - 1)) with (Zpos (2 ^ 52)).
      cbv iota beta.
      destruct (E + 1 <=? emax - prec); [ | reflexivity].
      split; [reflexivity | ]. split.
      * rewrite HRQ. rewrite (dyadic_shift (Zpos (2 ^ 52)) (E + 1) E) by lia.
        replace (E + 1 - E) with 1 by lia. reflexivity.
      * unfold cexp, fexp. change (Zdigits2 (Zpos (2 ^ 52))) with prec. lia.
Qed.

Lemma binary_round_aux_sign (s : bool) (mz e : Z) (l : location) :
  match binary_round_aux prec emax s mz e l with
  | S754_zero s' | S754_finite s' _ _ | S754_infinity s' => s' = s
  | S754_nan => True
  end.
Proof.
  unfold binary_round_aux.
  destruct (shr_fexp prec emax mz e l) as [mrs' e'].
  destruct (shr_fexp prec emax _ e' loc_Exact) as [mrs'' e''].
  destruct (shr_m mrs''); [reflexivity | | exact I].
  destruct (e'' <=? emax - prec); reflexivity.
Qed.

Lemma iter_xO (m d : positive) : Zpos (Pos.iter xO m d) = Zpos m * 2 ^ Zpos d.
Proof.
  induction d as [ | d IH] using Pos.peano_ind.
  - cbn [Pos.iter]. lia.
  - rewrite Pos.iter_succ, Pos2Z.inj_xO, IH, Pos2Z.inj_succ, Z.pow_succ_r by lia. ring.
Qed.

Lemma shl_align_spec (m : positive) (e E : Z) :
  snd (shl_align m e E) <= e /\
  Zpos (fst (shl_align m e E)) = Zpos m * 2 ^ (e - snd (shl_align m e E)).
Proof.
  unfold shl_align. destruct (E - e) as [ | d | d] eqn:Hd; cbn [fst snd].
  - rewrite Z.sub_diag. lia.
  - rewrite Z.sub_diag. lia.
  - rewrite iter_xO. split; [lia | ]. f_equal. f_equal. lia.
Qed.

Lemma binary_round_spec (s : bool) (m : positive) (e : Z) :
  match binary_round prec emax s m e with
  | S754_zero s' => s' = s /\ (RQ (Zpos m) e == 0)%Q
  | S754_finite s' M X =>
      s' = s /\ (inject_Z (Zpos M) * 2 ^ X == RQ (Zpos m) e)%Q /\
      cexp (Zpos M) X <= X
  | S754_infinity s' => s' = s
  | S754_nan => False
  end.
Proof.
  unfold binary_round.
  destruct (shl_align_spec m e (fexp prec emax (Zpos (digits2_pos m) + e)))
    as [Hle Hm].
  destruct (shl_align m e _) as [mz ez]. cbn [fst snd] in *.
  assert (HR : (RQ (Zpos mz) ez == RQ (Zpos m) e)%Q).
  { rewrite Hm. rewrite <- (RQ_shift (Zpos m) e (e - ez)) by lia.
    now replace (e - (e - ez)) with ez by lia. }
  pose proof (binary_round_aux_spec s mz ez) as Hspec.
  destruct (binary_round_aux prec emax s (Zpos mz) ez loc_Exact);
    try exact Hspec.
  - now rewrite <- HR.
  - now rewrite <- HR.
Qed.

Lemma binary_normalize_spec (z e : Z) (sz : bool) :
  match binary_normalize prec emax z e sz with
  | S754_zero _ => (sRQ z e == 0)%Q
  | S754_finite s M X =>
      (inject_Z (cond_Zopp s (Zpos M)) * 2 ^ X == sRQ z e)%Q /\
      cexp (Zpos M) X <= X
  | S754_infinity _ => True
  | S754_nan => False
  end.
Proof.
  destruct z as [ | p | p]; cbn [binary_normalize sRQ].
  - reflexivity.
  - pose proof (binary_round_spec false p e) as Hspec.
    destruct (binary_round prec emax false p e); try tauto.
    destruct Hspec as (-> & Hv & Hc). now split.
  - pose proof (binary_round_spec true p e) as Hspec.
    destruct (binary_round prec emax true p e).
    + destruct Hspec as [_ Hv]. rewrite Hv. reflexivity.
    + exact I.
    + exact Hspec.
    + destruct Hspec as (-> & Hv & Hc). split; [ | exact Hc].
      rewrite <- Hv. cbn [cond_Zopp].
      change (- Zpos m)%Z with (Zneg m). change (Zneg m) with (- Zpos m)%Z.
      rewrite inject_Z_opp. ring.
Qed.

(** ** Operations round the exact result *)


Lemma rounds_to_mono (v v' : Q) (r r' : spec_float) (q q' : Q) :
  rounds_to v r -> rounds_to v' r' -> (v <= v')%Q ->
  to_Q r = Some q -> to_Q r' = Some q' -> (q <= q')%Q.
Proof.
  intros (_ & z & e & Hv & Hr) (_ & z' & e' & Hv' & Hr') Hle Hq Hq'.
  rewrite (Hr q Hq), (Hr' q' Hq').
  apply sRQ_mono. now rewrite Hv, Hv'.
Qed.

Lemma rounds_to_zero (r : spec_float) (q : Q) :
  rounds_to 0 r -> to_Q r = Some q -> (q == 0)%Q.
Proof.
  intros (_ & z & e & Hv & Hr) Hq. rewrite (Hr q Hq).
  assert (Hz : z = 0).
  { apply (dyadic_eq z 0 e). now rewrite Hv, Qmult_0_l. }
  now rewrite Hz.
Qed.

Lemma rounds_to_sign (v : Q) (r : spec_float) (q : Q) :
  rounds_to v r -> to_Q r = Some q ->
  ((0 <= v)%Q -> (0 <= q)%Q) /\ ((v <= 0)%Q -> (q <= 0)%Q).
Proof.
  intros (_ & z & e & Hv & Hr) Hq. rewrite (Hr q Hq).
  split; intros H0.
  - change 0%Q with (sRQ 0 0). apply sRQ_mono. now rewrite Hv, Qmult_0_l.
  - change 0%Q with (sRQ 0 0). apply sRQ_mono. now rewrite Hv, Qmult_0_l.
Qed.

Lemma to_Q_finite (s : bool) (m : positive) (e : Z) :
  to_Q (S754_finite s m e) = Some (inject_Z (cond_Zopp s (Zpos m)) * 2 ^ e)%Q.
Proof. reflexivity. Qed.

(** A datum that is representable is its own rounding. *)
Lemma rounds_to_self (r : spec_float) (v q : Q) :
  representable r -> to_Q r = Some q -> (q == v)%Q -> rounds_to v r.
Proof.
  intros Hrep Hq Hv. split; [exact Hrep | ].
  destruct r as [s | s | | s m e]; try discriminate.
  - exists 0, 0. injection Hq as <-. split; [now rewrite <- Hv | ].
    intros q' Hq'. injection Hq' as <-. reflexivity.
  - exists (cond_Zopp s (Zpos m)), e. injection Hq as <-.
    split; [exact Hv | ].
    intros q' Hq'. injection Hq' as <-.
    now rewrite sRQ_representable.
Qed.

Lemma binary_normalize_rounds (z e : Z) (sz : bool) (v : Q) :
  (inject_Z z * 2 ^ e == v)%Q -> rounds_to v (binary_normalize prec emax z e sz).
Proof.
  intros Hv. pose proof (binary_normalize_spec z e sz) as Hspec.
  destruct (binary_normalize prec emax z e sz) as [s | s | | s M X].
  - split; [exact I | ]. exists z, e. split; [exact Hv | ].
    intros q Hq. injection Hq as <-. now rewrite Hspec.
  - split; [exact I | ]. exists z, e. split; [exact Hv | ]. discriminate.
  - contradiction.
  - destruct Hspec as [Hval Hc]. split; [exact Hc | ].
    exists z, e. split; [exact Hv | ].
    intros q Hq. injection Hq as <-. exact Hval.
Qed.

Lemma of_Z_rounds (z : Z) : rounds_to (inject_Z z) (of_Z z).
Proof.
  apply binary_normalize_rounds. change (2 ^ 0)%Q with 1%Q. apply Qmult_1_r.
Qed.

Lemma cond_Zopp_value (s : bool) (m : positive) (e : Z) :
  (inject_Z (cond_Zopp s (Zpos m)) * 2 ^ e
   == (if s then - (inject_Z (Zpos m) * 2 ^ e) else inject_Z (Zpos m) * 2 ^ e))%Q.
Proof.
  destruct s; cbn [cond_Zopp]; [ | reflexivity].
  change (- Zpos m)%Z with (Zneg m). change (Zneg m) with (- Zpos m)%Z.
  rewrite inject_Z_opp. ring.
Qed.

Lemma binary_round_aux_rounds (s : bool) (m : positive) (e : Z) (v : Q) :
  (inject_Z (cond_Zopp s (Zpos m)) * 2 ^ e == v)%Q ->
  rounds_to v (binary_round_aux prec emax s (Zpos m) e loc_Exact).
Proof.
  intros Hv. pose proof (binary_round_aux_spec s m e) as Hspec.
  assert (HsRQ : (sRQ (cond_Zopp s (Zpos m)) e
                  == if s then - RQ (Zpos m) e else RQ (Zpos m) e)%Q)
    by (destruct s; reflexivity).
  destruct (binary_round_aux prec emax s (Zpos m) e loc_Exact) as [s' | s' | | s' M X].
  - destruct Hspec as [_ Hz]. split; [exact I | ].
    exists (cond_Zopp s (Zpos m)), e. split; [exact Hv | ].
    intros q Hq. injection Hq as <-. rewrite HsRQ.
    destruct s; rewrite Hz; reflexivity.
  - split; [exact I | ].
    exists (cond_Zopp s (Zpos m)), e. split; [exact Hv | ]. discriminate.
  - contradiction.
  - destruct Hspec as (-> & Hval & Hc). split; [exact Hc | ].
    exists (cond_Zopp s (Zpos m)), e. split; [exact Hv | ].
    intros q Hq. injection Hq as <-.
    rewrite HsRQ, cond_Zopp_value. destruct s; rewrite Hval; reflexivity.
Qed.

Lemma SFmul_rounds (x y : spec_float) (vx vy : Q) :
  to_Q x = Some vx -> to_Q y = Some vy ->
  rounds_to (vx * vy) (SFmul prec emax x y).
Proof.
  intros Hx Hy.
  destruct x as [sx | sx | | sx mx ex]; try discriminate;
    destruct y as [sy | sy | | sy my ey]; try discriminate;
    injection Hx as <-; injection Hy as <-; cbn [SFmul].
  - apply (rounds_to_self _ _ 0%Q); [exact I | reflexivity | ring].
  - apply (rounds_to_self _ _ 0%Q); [exact I | reflexivity | ring].
  - apply (rounds_to_self _ _ 0%Q); [exact I | reflexivity | ring].
  - apply binary_round_aux_rounds.
    rewrite Qpower_plus by discriminate.
    rewrite Pos2Z.inj_mul.
    destruct sx, sy; cbn [xorb cond_Zopp];
      rewrite ?Z.mul_opp_l, ?Z.mul_opp_r, ?Z.opp_involutive, ?inject_Z_opp,
              ?inject_Z_mult, ?inject_Z_opp; ring.
Qed.

Lemma shl_align_min (m : positive) (e g : Z) :
  g <= e -> Zpos (fst (shl_align m e g)) = Zpos m * 2 ^ (e - g).
Proof.
  intros Hge. unfold shl_align.
  destruct (g - e) as [ | d | d] eqn:Hd; cbn [fst]; try lia.
  - replace (e - g) with 0 by lia. lia.
  - rewrite iter_xO. f_equal. f_equal. lia.
Qed.

Lemma aligned_value (s : bool) (m : positive) (e g : Z) :
  g <= e ->
  (inject_Z (cond_Zopp s (Zpos (fst (shl_align m e g)))) * 2 ^ g
   == inject_Z (cond_Zopp s (Zpos m)) * 2 ^ e)%Q.
Proof.
  intros Hge. rewrite shl_align_min by assumption.
  rewrite (dyadic_shift (cond_Zopp s (Zpos m)) e g) by assumption.
  destruct s; cbn [cond_Zopp]; [ | reflexivity].
  now rewrite Z.mul_opp_l.
Qed.

Lemma SFadd_rounds (x y : spec_float) (vx vy : Q) :
  representable x -> representable y ->
  to_Q x = Some vx -> to_Q y = Some vy ->
  rounds_to (vx + vy) (SFadd prec emax x y).
Proof.
  intros Rx Ry Hx Hy.
  destruct x as [sx | sx | | sx mx ex]; try discriminate;
    destruct y as [sy | sy | | sy my ey]; try discriminate;
    injection Hx as <-; injection Hy as <-; cbn [SFadd].
  - apply (rounds_to_self _ _ 0%Q); [ | | ring]; destruct sx, sy; try exact I; reflexivity.
  - apply (rounds_to_self _ _ _ Ry (to_Q_finite _ _ _)). ring.
  - apply (rounds_to_self _ _ _ Rx (to_Q_finite _ _ _)). ring.
  - cbv zeta. apply binary_normalize_rounds.
    rewrite inject_Z_plus, Qmult_plus_distr_l.
    rewrite !aligned_value by lia. reflexivity.
Qed.

Lemma SFsub_rounds (x y : spec_float) (vx vy : Q) :
  representable x -> representable y ->
  to_Q x = Some vx -> to_Q y = Some vy ->
  rounds_to (vx - vy) (SFsub prec emax x y).
Proof.
  intros Rx Ry Hx Hy.
  destruct x as [sx | sx | | sx mx ex]; try discriminate;
    destruct y as [sy | sy | | sy my ey]; try discriminate;
    injection Hx as <-; injection Hy as <-; cbn [SFsub].
  - apply (rounds_to_self _ _ 0%Q); [ | | ring]; destruct sx, sy; try exact I; reflexivity.
  - apply (rounds_to_self (S754_finite (negb sy) my ey) _ _ Ry (to_Q_finite _ _ _)).
    rewrite !cond_Zopp_value. destruct sy; cbn [negb]; ring.
  - apply (rounds_to_self _ _ _ Rx (to_Q_finite _ _ _)). ring.
  - cbv zeta. apply binary_normalize_rounds.
    unfold Z.sub. rewrite inject_Z_plus, inject_Z_opp, Qmult_plus_distr_l.
    assert (Hopp : forall a b : Q, (- a * b == - (a * b))%Q) by (intros; ring).
    rewrite Hopp, !aligned_value by lia. ring.
Qed.

(** An operation that returns a number was given numbers. *)
Lemma SFadd_finite (x y : spec_float) (q : Q) :
  to_Q (SFadd prec emax x y) = Some q ->
  exists vx vy, to_Q x = Some vx /\ to_Q y = Some vy.
Proof.
  destruct x as [[] | [] | | sx mx ex], y as [[] | [] | | sy my ey];
    cbn [SFadd to_Q]; intros Hq; try discriminate; eauto.
Qed.

Lemma SFsub_finite (x y : spec_float) (q : Q) :
  to_Q (SFsub prec emax x y) = Some q ->
  exists vx vy, to_Q x = Some vx /\ to_Q y = Some vy.
Proof.
  destruct x as [[] | [] | | sx mx ex], y as [[] | [] | | sy my ey];
    cbn [SFsub to_Q]; intros Hq; try discriminate; eauto.
Qed.

Lemma SFmul_finite (x y : spec_float) (q : Q) :
  to_Q (SFmul prec emax x y) = Some q ->
  exists vx vy, to_Q x = Some vx /\ to_Q y = Some vy.
Proof.
  destruct x as [[] | [] | | sx mx ex], y as [[] | [] | | sy my ey];
    cbn [SFmul to_Q]; intros Hq; try discriminate; eauto.
Qed.


Lemma of_Z_positive (z : Z) : 0 <= z -> positive_divisor (of_Z z).
Proof.
  intros Hz. unfold of_Z. destruct z as [ | p | p]; try lia; cbn [binary_normalize].
  - exact I.
  - unfold binary_round. destruct (shl_align _ _ _) as [mz ez].
    pose proof (binary_round_aux_sign false (Zpos mz) ez loc_Exact) as Hs.
    pose proof (binary_round_aux_spec false mz ez) as Hn.
    destruct (binary_round_aux prec emax false (Zpos mz) ez loc_Exact);
      cbn [positive_divisor]; try subst; try exact I. contradiction.
Qed.

Lemma SFdiv_sign (x y : spec_float) (q : Q) :
  positive_divisor y ->
  to_Q (SFdiv prec emax x y) = Some q ->
  exists vx, to_Q x = Some vx /\
             ((0 <= vx)%Q -> (0 <= q)%Q) /\ ((vx <= 0)%Q -> (q <= 0)%Q).
Proof.
  intros Hy Hq.
  destruct x as [sx | sx | | sx mx ex]; try (destruct y as [ | [] | | ]; discriminate).
  - exists 0%Q. split; [reflexivity | ].
    destruct y as [sy | sy | | sy my ey]; try discriminate;
      cbn [SFdiv to_Q] in Hq; injection Hq as <-; split; intros; apply Qle_refl.
  - eexists. split; [reflexivity | ].
    destruct y as [sy | [] | | [] my ey]; try discriminate; try contradiction.
    + cbn [SFdiv to_Q] in Hq. injection Hq as <-. split; intros; apply Qle_refl.
    + cbn [SFdiv] in Hq.
      destruct (SFdiv_core_binary prec emax (Zpos mx) ex (Zpos my) ey) as [[mz ez] lz].
      rewrite xorb_false_r in Hq.
      pose proof (binary_round_aux_sign sx mz ez lz) as Hs.
      destruct (binary_round_aux prec emax sx mz ez lz)
        as [s' | s' | | s' M X]; try discriminate.
      * injection Hq as <-. split; intros; apply Qle_refl.
      * cbn in Hs. subst s'. injection Hq as <-.
        pose proof (Qpow2_pos ex) as Hpx. pose proof (Qpow2_pos X) as HpX.
        assert (Hm : (0 < inject_Z (Zpos mx) * 2 ^ ex)%Q)
          by (apply Qmult_lt_0_compat; [reflexivity | exact Hpx]).
        assert (HM : (0 < inject_Z (Zpos M) * 2 ^ X)%Q)
          by (apply Qmult_lt_0_compat; [reflexivity | exact HpX]).
        rewrite !cond_Zopp_value. destruct sx; split; intros; lra.
Qed.

Lemma valid_representable (x : spec_float) :
  valid_binary prec emax x = true -> representable x.
Proof.
  destruct x as [s | s | | s m e]; try (intros; exact I).
  cbn [valid_binary representable]. unfold bounded, canonical_mantissa.
  intros H. apply andb_true_iff in H. destruct H as [H _].
  apply Z.eqb_eq in H. unfold cexp. cbn [Zdigits2]. lia.
Qed.
End Rounding.

(** ** The interpolation branch in binary64 *)

Section RampBinary64.
Import Binary64.
Variable w : Z.
Variable td : trajData spec_float.
Variables vs ve : Q.
Hypothesis start_in_range : in_range w (lStartTime td).
Hypothesis end_in_range : in_range w (lEndTime td).
Hypothesis start_valid : valid_binary prec emax (dStartValue td) = true.
Hypothesis end_valid : valid_binary prec emax (dEndValue td) = true.
Hypothesis start_value : to_Q (dStartValue td) = Some vs.
Hypothesis end_value : to_Q (dEndValue td) = Some ve.

Local Open Scope Q_scope.

(** Over the interpolation branch the commanded value, wherever it is a
    number, moves in the direction of the ramp: every operation on the
    way from [lTime] to [dOutput] is monotone, rounding included. *)
Lemma ramp_monotone (b b' : benchData) (q q' : Q) :
  (lStartTime td <= lTime b)%Z -> (lTime b <= lTime b')%Z ->
  (lTime b' < lEndTime td)%Z ->
  to_Q (Host.commanded w b td) = Some q ->
  to_Q (Host.commanded w b' td) = Some q' ->
  (vs <= ve -> q <= q') /\ (ve <= vs -> q' <= q).
Proof.
  intros Hs Hle He. unfold Host.commanded.
  rewrite !fTrajectory_ramp by lia. cbv zeta.
  cbn [traj_after dOutput set_dOutput].
  rewrite wrap_small by (unfold in_range in *; lia).
  cbn [dadd dsub dmul ddiv of_ulong binary64_ops].
  set (diff := SFsub prec emax (dEndValue td) (dStartValue td)).
  set (dM := SFdiv prec emax diff (of_Z (lEndTime td - lStartTime td))).
  set (prod := SFmul prec emax dM (of_Z (lEndTime td))).
  set (dN := SFsub prec emax (dEndValue td) prod).
  intros Hq Hq'.
  destruct (SFadd_finite _ _ _ Hq) as (a & c & Ha & Hc).
  destruct (SFadd_finite _ _ _ Hq') as (a' & c' & Ha' & _).
  destruct (SFmul_finite _ _ _ Ha) as (vm & vt & Hm & Ht).
  destruct (SFmul_finite _ _ _ Ha') as (vm' & vt' & _ & Ht').
  destruct (SFsub_finite _ _ _ Hc) as (ve' & vp & _ & Hp).
  destruct (SFdiv_sign diff _ vm
              (of_Z_positive (lEndTime td - lStartTime td) ltac:(lia)) Hm)
    as (vd & Hd & Hpos & Hneg).
  pose proof (valid_representable _ start_valid) as Rs.
  pose proof (valid_representable _ end_valid) as Re.
  pose proof (SFsub_rounds _ _ _ _ Re Rs end_value start_value) as Rdiff.
  fold diff in Rdiff.
  destruct (rounds_to_sign _ _ _ Rdiff Hd) as [Hdpos Hdneg].
  pose proof (rounds_to_mono _ _ _ _ _ _
                (of_Z_rounds (lTime b)) (of_Z_rounds (lTime b'))
                ltac:(rewrite <- Zle_Qle; exact Hle) Ht Ht') as Htt.
  pose proof (SFmul_rounds _ _ _ _ Hm Ht) as Ra.
  pose proof (SFmul_rounds _ _ _ _ Hm Ht') as Ra'.
  destruct (SFmul_finite dM (of_Z (lEndTime td)) vp Hp) as (vm'' & vend & _ & Hend).
  pose proof (SFmul_rounds _ _ _ _ Hm Hend) as Rp. fold prod in Rp.
  pose proof (SFsub_rounds _ _ _ _ Re (proj1 Rp) end_value Hp) as RdN.
  fold dN in RdN.
  pose proof (SFadd_rounds _ _ _ _ (proj1 Ra) (proj1 RdN) Ha Hc) as Rq.
  pose proof (SFadd_rounds _ _ _ _ (proj1 Ra') (proj1 RdN) Ha' Hc) as Rq'.
  split; intros Hv.
  - assert (H0 : 0 <= vm) by (apply Hpos, Hdpos; lra).
    assert (Haa : a <= a').
    { apply (rounds_to_mono _ _ _ _ _ _ Ra Ra'); [nra | exact Ha | exact Ha']. }
    apply (rounds_to_mono _ _ _ _ _ _ Rq Rq'); [lra | exact Hq | exact Hq'].
  - assert (H0 : vm <= 0) by (apply Hneg, Hdneg; lra).
    assert (Haa : a' <= a).
    { apply (rounds_to_mono _ _ _ _ _ _ Ra' Ra); [nra | exact Ha' | exact Ha]. }
    apply (rounds_to_mono _ _ _ _ _ _ Rq' Rq); [lra | exact Hq' | exact Hq].
Qed.
End RampBinary64.

(** ** Inside the ramp *)

(** C6, as the code has it: for in-range times, start and end value
    finite [double]s, and elapsed times strictly between [lStartTime] and
    [lEndTime], in binary64.
    - Linear: a call none of whose operations rounds commands the value
      of the interpolation formula, which lies between the two values; in
      rational arithmetic every call does.
    - Monotone: wherever the commanded values are numbers, they move in
      the direction of the ramp, non-decreasing when
      [dStartValue <= dEndValue] and non-increasing when
      [dEndValue <= dStartValue], rounding included.
    - Bounds: every commanded value lies between those of the first and
      of the last elapsed time inside the ramp, so all of them lie
      between start and end value when those two do.
    (Rounding makes the value differ from the formula, an overflow makes
    it NaN, and at large times it leaves the interval; instances follow
    the theorem.) *)
Theorem C6_inside_the_ramp
    (vs ve : Q) (w : Z) (td : trajData spec_float) (b b' : benchData) (q q' : Q) :
  in_range w (lStartTime td) -> in_range w (lEndTime td) ->
  lStartTime td < lTime b < lEndTime td ->
  lStartTime td < lTime b' < lEndTime td ->
  lTime b <= lTime b' ->
  valid_binary Binary64.prec Binary64.emax (dStartValue td) = true ->
  valid_binary Binary64.prec Binary64.emax (dEndValue td) = true ->
  Binary64.to_Q (dStartValue td) = Some vs ->
  Binary64.to_Q (dEndValue td) = Some ve ->
  Binary64.to_Q (Host.commanded w b td) = Some q ->
  Binary64.to_Q (Host.commanded w b' td) = Some q' ->
  (Host.exact_call w Binary64.to_Q b td ->
     (q == vs + (ve - vs) * inject_Z (lTime b - lStartTime td)
                / inject_Z (lEndTime td - lStartTime td))%Q /\
     ((vs <= ve)%Q -> (vs <= q <= ve)%Q) /\
     ((ve <= vs)%Q -> (ve <= q <= vs)%Q)) /\
  ((vs <= ve)%Q -> (q <= q')%Q) /\
  ((ve <= vs)%Q -> (q' <= q)%Q) /\
  (forall qf ql : Q,
     Binary64.to_Q (Host.commanded w (mkBench (lStartTime td + 1)) td) = Some qf ->
     Binary64.to_Q (Host.commanded w (mkBench (lEndTime td - 1)) td) = Some ql ->
     ((vs <= ve)%Q ->
        (qf <= q <= ql)%Q /\
        ((vs <= qf)%Q -> (ql <= ve)%Q -> (vs <= q <= ve)%Q)) /\
     ((ve <= vs)%Q ->
        (ql <= q <= qf)%Q /\
        ((ve <= ql)%Q -> (qf <= vs)%Q -> (ve <= q <= vs)%Q))) /\
  (forall tq : trajData Q,
     in_range w (lStartTime tq) -> in_range w (lEndTime tq) ->
     lStartTime tq < lTime b < lEndTime tq ->
     (Host.commanded w b tq == Host.interpolation b tq)%Q).
Proof.
  intros Hs He Ht Ht' Hle Vs Ve Hvs Hve Hq Hq'.
  assert (Hse : lStartTime td < lEndTime td) by lia.
  split; [ | split; [ | split; [ | split]]].
  - intros Hex.
    assert (Rs : reads Binary64.to_Q (dStartValue td) vs)
      by (exists vs; split; [exact Hvs | reflexivity]).
    assert (Re : reads Binary64.to_Q (dEndValue td) ve)
      by (exists ve; split; [exact Hve | reflexivity]).
    assert (Hr : reads Binary64.to_Q (Host.commanded w b td) q)
      by (exists q; split; [exact Hq | reflexivity]).
    pose proof (commanded_exact Binary64.to_Q w td vs ve Hs He Rs Re b
                  ltac:(lia) Hex) as Hc.
    pose proof (reads_unique _ _ _ _ Hr Hc) as Hv.
    pose proof (progress_bounds td b ltac:(lia) Hse) as [Hp0 Hp1].
    split; [ | split].
    + rewrite Hv. unfold Host.progress, Qdiv. ring.
    + intros Hv'. rewrite Hv. split; nra.
    + intros Hv'. rewrite Hv. split; nra.
  - apply (ramp_monotone w td vs ve Hs He Vs Ve Hvs Hve b b' q q');
      [lia | exact Hle | lia | exact Hq | exact Hq'].
  - apply (ramp_monotone w td vs ve Hs He Vs Ve Hvs Hve b b' q q');
      [lia | exact Hle | lia | exact Hq | exact Hq'].
  - intros qf ql Hqf Hql.
    destruct (ramp_monotone w td vs ve Hs He Vs Ve Hvs Hve
                (mkBench (lStartTime td + 1)) b qf q)
      as [Hup1 Hdown1]; [simpl; lia | simpl; lia | lia | exact Hqf | exact Hq | ].
    destruct (ramp_monotone w td vs ve Hs He Vs Ve Hvs Hve
                b (mkBench (lEndTime td - 1)) q ql)
      as [Hup2 Hdown2]; [lia | simpl; lia | simpl; lia | exact Hq | exact Hql | ].
    split; intros Hv.
    + pose proof (Hup1 Hv). pose proof (Hup2 Hv).
      split; [split; assumption | ]. intros Hf Hl. split; lra.
    + pose proof (Hdown1 Hv). pose proof (Hdown2 Hv).
      split; [split; assumption | ]. intros Hl Hf. split; lra.
  - intros tq Hqs Hqe Hqt.
    apply reads_rational.
    apply (reads_eq _ _ _ _
             (commanded_exact Some w tq (dStartValue tq) (dEndValue tq) Hqs Hqe
                (proj2 (reads_rational _ _) (Qeq_refl _))
                (proj2 (reads_rational _ _) (Qeq_refl _))
                b ltac:(lia) (exact_ops_exact w b tq))).
    unfold Host.interpolation, Host.progress, Qdiv. simpl. unfold Qdiv. ring.
Qed.

(** The ramp from 0.0 to 10.0 between times 0 and 1000, whose slope
    0.01 is rounded, at elapsed times 250 and 750: the values 2.5 and 7.5
    are in order and between the values 0.01 and 9.99 of the first and
    the last elapsed time inside the ramp, hence between 0.0 and 10.0.
    And the ramp from 0.0 to 3.0 between times 1 and 4, where nothing
    rounds, at elapsed time 2: the value is that of the formula. *)
Lemma C6_inside_the_ramp_witness :
  (in_range 64 (lStartTime Examples.slow_ramp) /\
   in_range 64 (lEndTime Examples.slow_ramp) /\
   lStartTime Examples.slow_ramp < lTime (mkBench 250)
     < lEndTime Examples.slow_ramp /\
   lStartTime Examples.slow_ramp < lTime (mkBench 750)
     < lEndTime Examples.slow_ramp /\
   lTime (mkBench 250) <= lTime (mkBench 750) /\
   valid_binary Binary64.prec Binary64.emax (dStartValue Examples.slow_ramp) = true /\
   valid_binary Binary64.prec Binary64.emax (dEndValue Examples.slow_ramp) = true /\
   Binary64.to_Q (dStartValue Examples.slow_ramp) = Some 0%Q /\
   Binary64.to_Q (dEndValue Examples.slow_ramp)
     = Some (inject_Z 5629499534213120 * 2 ^ (-49))%Q /\
   Binary64.to_Q (Host.commanded 64 (mkBench 250) Examples.slow_ramp)
     = Some (inject_Z 5629499534213120 * 2 ^ (-51))%Q /\
   Binary64.to_Q (Host.commanded 64 (mkBench 750) Examples.slow_ramp)
     = Some (inject_Z 8444249301319680 * 2 ^ (-50))%Q /\
   (inject_Z 5629499534213120 * 2 ^ (-51)
      <= inject_Z 8444249301319680 * 2 ^ (-50))%Q /\
   (0 <= inject_Z 5629499534213120 * 2 ^ (-51)
      <= inject_Z 5629499534213120 * 2 ^ (-49))%Q) /\
  (Host.exact_call 64 Binary64.to_Q (mkBench 2) Examples.unit_slope /\
   Binary64.to_Q (Host.commanded 64 (mkBench 2) Examples.unit_slope)
     = Some (inject_Z 4503599627370496 * 2 ^ (-52))%Q /\
   (inject_Z 4503599627370496 * 2 ^ (-52)
      == 0 + (3 - 0) * inject_Z (2 - 1) / inject_Z (4 - 1))%Q).
Proof.
  split.
  - assert (Hs : in_range 64 (lStartTime Examples.slow_ramp))
      by (unfold in_range; simpl; lia).
    assert (He : in_range 64 (lEndTime Examples.slow_ramp))
      by (unfold in_range; simpl; lia).
    assert (Ht : lStartTime Examples.slow_ramp < lTime (mkBench 250)
                 < lEndTime Examples.slow_ramp) by (simpl; lia).
    assert (Ht' : lStartTime Examples.slow_ramp < lTime (mkBench 750)
                  < lEndTime Examples.slow_ramp) by (simpl; lia).
    assert (Hle : lTime (mkBench 250) <= lTime (mkBench 750)) by (simpl; lia).
    assert (Vs : valid_binary Binary64.prec Binary64.emax
                   (dStartValue Examples.slow_ramp) = true) by reflexivity.
    assert (Ve : valid_binary Binary64.prec Binary64.emax
                   (dEndValue Examples.slow_ramp) = true) by (vm_compute; reflexivity).
    assert (Hvs : Binary64.to_Q (dStartValue Examples.slow_ramp) = Some 0%Q)
      by reflexivity.
    assert (Hve : Binary64.to_Q (dEndValue Examples.slow_ramp)
                  = Some (inject_Z 5629499534213120 * 2 ^ (-49))%Q)
      by (vm_compute; reflexivity).
    assert (Hq : Binary64.to_Q (Host.commanded 64 (mkBench 250) Examples.slow_ramp)
                 = Some (inject_Z 5629499534213120 * 2 ^ (-51))%Q)
      by (vm_compute; reflexivity).
    assert (Hq' : Binary64.to_Q (Host.commanded 64 (mkBench 750) Examples.slow_ramp)
                  = Some (inject_Z 8444249301319680 * 2 ^ (-50))%Q)
      by (vm_compute; reflexivity).
    assert (Hqf : Binary64.to_Q
                    (Host.commanded 64 (mkBench (lStartTime Examples.slow_ramp + 1))
                       Examples.slow_ramp)
                  = Some (inject_Z 5764607523034235 * 2 ^ (-59))%Q)
      by (vm_compute; reflexivity).
    assert (Hql : Binary64.to_Q
                    (Host.commanded 64 (mkBench (lEndTime Examples.slow_ramp - 1))
                       Examples.slow_ramp)
                  = Some (inject_Z 5623870034678907 * 2 ^ (-49))%Q)
      by (vm_compute; reflexivity).
    assert (Hv : (0 <= inject_Z 5629499534213120 * 2 ^ (-49))%Q)
      by (vm_compute; discriminate).
    destruct (C6_inside_the_ramp _ _ 64 Examples.slow_ramp (mkBench 250) (mkBench 750)
                _ _ Hs He Ht Ht' Hle Vs Ve Hvs Hve Hq Hq')
      as (_ & Hup & _ & Hbetween & _).
    destruct (Hbetween _ _ Hqf Hql) as [Hinc _].
    destruct (Hinc Hv) as [_ Hbounds].
    split; [exact Hs | ]. split; [exact He | ]. split; [exact Ht | ].
    split; [exact Ht' | ]. split; [exact Hle | ]. split; [exact Vs | ].
    split; [exact Ve | ]. split; [exact Hvs | ]. split; [exact Hve | ].
    split; [exact Hq | ]. split; [exact Hq' | ].
    split; [exact (Hup Hv) | ].
    apply Hbounds; vm_compute; discriminate.
  - assert (Hs : in_range 64 (lStartTime Examples.unit_slope))
      by (unfold in_range; simpl; lia).
    assert (He : in_range 64 (lEndTime Examples.unit_slope))
      by (unfold in_range; simpl; lia).
    assert (Ht : lStartTime Examples.unit_slope < lTime (mkBench 2)
                 < lEndTime Examples.unit_slope) by (simpl; lia).
    assert (Hle : lTime (mkBench 2) <= lTime (mkBench 2)) by (simpl; lia).
    assert (Vs : valid_binary Binary64.prec Binary64.emax
                   (dStartValue Examples.unit_slope) = true) by reflexivity.
    assert (Ve : valid_binary Binary64.prec Binary64.emax
                   (dEndValue Examples.unit_slope) = true) by (vm_compute; reflexivity).
    assert (Hvs : Binary64.to_Q (dStartValue Examples.unit_slope) = Some 0%Q)
      by reflexivity.
    assert (Hve : Binary64.to_Q (dEndValue Examples.unit_slope)
                  = Some (inject_Z 6755399441055744 * 2 ^ (-51))%Q)
      by (vm_compute; reflexivity).
    assert (Hex : Host.exact_call 64 Binary64.to_Q (mkBench 2) Examples.unit_slope).
    { unfold Host.exact_call. cbv zeta. repeat split; exact_by_evaluation. }
    assert (Hq : Binary64.to_Q (Host.commanded 64 (mkBench 2) Examples.unit_slope)
                 = Some (inject_Z 4503599627370496 * 2 ^ (-52))%Q)
      by (vm_compute; reflexivity).
    destruct (C6_inside_the_ramp _ _ 64 Examples.unit_slope (mkBench 2) (mkBench 2)
                _ _ Hs He Ht Ht Hle Vs Ve Hvs Hve Hq Hq)
      as (Hlin & _).
    destruct (Hlin Hex) as (Hformula & _).
    split; [exact Hex | ]. split; [exact Hq | ].
    rewrite Hformula. vm_compute. reflexivity.
Defined.

(** C6 fails in binary64, in each of its three parts.  For the ramp from
    0.0 to 1.0 between times 1 and 4, the call at elapsed time 2 commands
    6004799503160662 * 2^-54, which is neither the interpolation formula
    evaluated in binary64 (6004799503160661 * 2^-54) nor the real number
    1/3 it stands for.  With 64-bit times, for the ramp from 3.0 down to
    1.0 between 2^55 and 2^55 + 2, the call at elapsed time 2^55 + 1
    commands 0.0, below both values; and times that convert without
    rounding do not save the bounds: for the ramp from 1.0 to 10.0
    between 5000000000000003 and 5000000000000005, below 2^53, the call
    at the elapsed time between them commands 0.0 as well.  And for the
    ramp from the most negative to the largest finite value between
    times 1 and 4, the calls at elapsed times 2 and 3 both command NaN,
    and NaN is not less than or equal to NaN. *)
Lemma C6_counterexample :
  (lStartTime Examples.ramp_1_4 < lTime (mkBench 2) < lEndTime Examples.ramp_1_4 /\
   Host.commanded 64 (mkBench 2) Examples.ramp_1_4
     = S754_finite false 6004799503160662 (-54) /\
   Host.interpolation (mkBench 2) Examples.ramp_1_4
     = S754_finite false 6004799503160661 (-54) /\
   Host.commanded 64 (mkBench 2) Examples.ramp_1_4
     <> Host.interpolation (mkBench 2) Examples.ramp_1_4 /\
   (forall q, Binary64.to_Q (Host.commanded 64 (mkBench 2) Examples.ramp_1_4) = Some q ->
              ~ (q == 0 + (1 - 0) * inject_Z (2 - 1) / inject_Z (4 - 1))%Q)) /\
  (lStartTime Examples.late_ramp < lTime (mkBench (2 ^ 55 + 1))
     < lEndTime Examples.late_ramp /\
   Host.commanded 64 (mkBench (2 ^ 55 + 1)) Examples.late_ramp = S754_zero false /\
   SFltb (Host.commanded 64 (mkBench (2 ^ 55 + 1)) Examples.late_ramp)
         (dEndValue Examples.late_ramp) = true /\
   SFltb (dEndValue Examples.late_ramp) (dStartValue Examples.late_ramp) = true) /\
  (lStartTime Examples.aged_ramp < lTime (mkBench 5000000000000004)
     < lEndTime Examples.aged_ramp /\
   lEndTime Examples.aged_ramp < 2 ^ 53 /\
   Host.commanded 64 (mkBench 5000000000000004) Examples.aged_ramp
     = S754_zero false /\
   SFltb (Host.commanded 64 (mkBench 5000000000000004) Examples.aged_ramp)
         (dStartValue Examples.aged_ramp) = true /\
   SFltb (dStartValue Examples.aged_ramp) (dEndValue Examples.aged_ramp) = true) /\
  (lStartTime Examples.full_swing < lTime (mkBench 2) /\
   lTime (mkBench 2) <= lTime (mkBench 3) /\
   lTime (mkBench 3) < lEndTime Examples.full_swing /\
   SFleb (dStartValue Examples.full_swing) (dEndValue Examples.full_swing) = true /\
   Host.commanded 64 (mkBench 2) Examples.full_swing = S754_nan /\
   Host.commanded 64 (mkBench 3) Examples.full_swing = S754_nan /\
   SFleb (Host.commanded 64 (mkBench 2) Examples.full_swing)
         (Host.commanded 64 (mkBench 3) Examples.full_swing) = false).
Proof.
  split; [ | split; [ | split]].
  - split; [simpl; lia | ].
    split; [vm_compute; reflexivity | ].
    split; [vm_compute; reflexivity | ].
    split; [vm_compute; discriminate | ].
    intros q Hq. vm_compute in Hq. injection Hq as <-.
    vm_compute. discriminate.
  - split; [vm_compute; split; reflexivity | ].
    repeat split; vm_compute; reflexivity.
  - split; [simpl; lia | ]. split; [reflexivity | ].
    repeat split; vm_compute; reflexivity.
  - split; [reflexivity | ]. split; [simpl; lia | ]. split; [reflexivity | ].
    repeat split; vm_compute; reflexivity.
Qed.

(** * The embedded trajectory function *)

Section ArmTrajectory.
Context {P : Type}.
Implicit Types s : @Arm.Sketch P.

(** [Messung] drives the select lines, converts twice and returns the
    second reading, calibrated and rounded to [float]. *)
Lemma Messung_run s :
  Arm.Messung s =
    (Arm.narrow (Arm.calibrate_x (Arm.adc s (S (Arm.conversions s)))),
     Arm.mkSketch
       (Arm.adc s (S (Arm.conversions s)))
       (Arm.calibrate_x (Arm.adc s (S (Arm.conversions s))))
       (Arm.calibrate_y (Arm.adc s (Arm.conversions s)))
       (Arm.transport s) (Arm.adc s) (S (S (Arm.conversions s))),
     [EvDigitalWrite Arm.Ausgang_B Arm.HIGH;
      EvDigitalWrite Arm.Ausgang_D Arm.LOW;
      EvAnalogRead Arm.Eingang_E (Arm.adc s (Arm.conversions s));
      EvDigitalWrite Arm.Ausgang_B Arm.LOW;
      EvDigitalWrite Arm.Ausgang_D Arm.HIGH;
      EvAnalogRead Arm.Eingang_E (Arm.adc s (S (Arm.conversions s)))]).
Proof. reflexivity. Qed.

Lemma fTrajectory_run s (b : benchData) (td : trajData spec_float) :
  Arm.fTrajectory b td s =
    let m := Arm.widen (value_of (Arm.Messung s)) in
    ((b, set_dOutput td m),
     Arm.set_x m (state_of (Arm.Messung s)),
     events_of (Arm.Messung s)).
Proof.
  unfold Arm.fTrajectory. rewrite Messung_run.
  cbv [bind ret modify get state_of value_of events_of fst snd].
  cbv zeta. rewrite !app_nil_r. reflexivity.
Qed.
End ArmTrajectory.

(** ** Determinism and frame *)

(** C8, as the code has it.  Host: a call is a function of its two
    arguments, does not depend on the previous [dOutput], leaves
    [benchData] alone and changes of [trajData] only [dOutput].
    Embedded: of the two structures a call likewise changes only
    [dOutput], and it leaves the transport object alone; but the value it
    writes is the second of two analog readings it takes, calibrated, and
    the call overwrites the globals [sensorValue], [y] and [x], drives the
    select lines and consumes two conversions. *)
Theorem C8_frame {D : Type} `{DoubleOps D} {P : Type}
    (w : Z) (b b' : benchData) (td td' : trajData D)
    (s : @Arm.Sketch P) (tda : trajData spec_float) :
  b = b' -> td = td' ->
  (* host *)
  Host.fTrajectory w b td = Host.fTrajectory w b' td' /\
  (forall v, Host.commanded w b (set_dOutput td v) = Host.commanded w b td) /\
  bench_after (Host.fTrajectory w b td) = b /\
  traj_after (Host.fTrajectory w b td) = set_dOutput td (Host.commanded w b td) /\
  (* embedded *)
  fst (value_of (Arm.fTrajectory b tda s)) = b /\
  snd (value_of (Arm.fTrajectory b tda s))
    = set_dOutput tda
        (Arm.widen (Arm.narrow (Arm.calibrate_x (Arm.adc s (S (Arm.conversions s)))))) /\
  Arm.transport (state_of (Arm.fTrajectory b tda s)) = Arm.transport s /\
  Arm.sensorValue (state_of (Arm.fTrajectory b tda s))
    = Arm.adc s (S (Arm.conversions s)) /\
  Arm.x (state_of (Arm.fTrajectory b tda s))
    = dOutput (snd (value_of (Arm.fTrajectory b tda s))) /\
  Arm.y (state_of (Arm.fTrajectory b tda s))
    = Arm.calibrate_y (Arm.adc s (Arm.conversions s)) /\
  Arm.conversions (state_of (Arm.fTrajectory b tda s)) = S (S (Arm.conversions s)) /\
  events_of (Arm.fTrajectory b tda s) = events_of (Arm.Messung s).
Proof.
  intros <- <-.
  split; [reflexivity | ].
  split.
  { intros v. unfold Host.commanded, Host.fTrajectory.
    destruct td as [sv st ev et out]; simpl.
    destruct (lTime b <? st); [reflexivity | ].
    destruct (lTime b <? et); reflexivity. }
  split.
  { unfold Host.fTrajectory.
    destruct (lTime b <? lStartTime td); [reflexivity | ].
    destruct (lTime b <? lEndTime td); reflexivity. }
  split.
  { unfold Host.commanded, Host.fTrajectory.
    destruct (lTime b <? lStartTime td); [reflexivity | ].
    destruct (lTime b <? lEndTime td); reflexivity. }
  rewrite fTrajectory_run, Messung_run. cbv zeta.
  repeat split; reflexivity.
Qed.

Lemma C8_frame_witness :
  mkBench 2 = mkBench 2 /\ Examples.ramp_1_4 = Examples.ramp_1_4 /\
  bench_after (Host.fTrajectory 64 (mkBench 2) Examples.ramp_1_4) = mkBench 2 /\
  Arm.transport
    (state_of (Arm.fTrajectory (mkBench 2) Examples.ramp_1_4 (Examples.sketch_reading 300)))
    = Arm.transport (Examples.sketch_reading 300).
Proof.
  split; [reflexivity | ]. split; [reflexivity | ].
  destruct (C8_frame 64 (mkBench 2) (mkBench 2) Examples.ramp_1_4 Examples.ramp_1_4
              (Examples.sketch_reading 300) Examples.ramp_1_4 eq_refl eq_refl)
    as (_ & _ & Hb & _ & _ & _ & Ht & _).
  split; [exact Hb | exact Ht].
Defined.

(** C8 fails for the embedded variant: two calls with the same
    [benchData] and [trajData], one on an input reading 300 and one on an
    input reading 700, command different values; and a call overwrites
    the globals [x] and [sensorValue]. *)
Lemma C8_counterexample :
  dOutput (snd (value_of
     (Arm.fTrajectory (mkBench 0) Examples.ramp_1_4 (Examples.sketch_reading 300))))
  <> dOutput (snd (value_of
     (Arm.fTrajectory (mkBench 0) Examples.ramp_1_4 (Examples.sketch_reading 700)))) /\
  Arm.x (state_of
     (Arm.fTrajectory (mkBench 0) Examples.ramp_1_4 (Examples.sketch_reading 300)))
  <> Arm.x (Examples.sketch_reading 300) /\
  Arm.sensorValue (state_of
     (Arm.fTrajectory (mkBench 0) Examples.ramp_1_4 (Examples.sketch_reading 300)))
  <> Arm.sensorValue (Examples.sketch_reading 300).
Proof.
  repeat split; vm_compute; discriminate.
Qed.

(** ** The embedded output follows the sensor *)

(** C10: two calls of the embedded [fTrajectory] whose sketches see the
    same analog readings write the same [dOutput], whatever the
    descriptors and elapsed times they are given (and whatever else
    differs): the value [Messung] returns, converted back to [double],
    which is the calibrated second reading rounded to [float]. *)
Theorem C10_output_is_measurement {P : Type}
    (s1 s2 : @Arm.Sketch P) (b1 b2 : benchData) (td1 td2 : trajData spec_float) :
  Arm.conversions s1 = Arm.conversions s2 ->
  (forall n, Arm.adc s1 n = Arm.adc s2 n) ->
  dOutput (snd (value_of (Arm.fTrajectory b1 td1 s1)))
    = dOutput (snd (value_of (Arm.fTrajectory b2 td2 s2))) /\
  dOutput (snd (value_of (Arm.fTrajectory b1 td1 s1)))
    = Arm.widen (value_of (Arm.Messung s1)) /\
  value_of (Arm.Messung s1)
    = Arm.narrow (Arm.calibrate_x (Arm.adc s1 (S (Arm.conversions s1)))).
Proof.
  intros Hn Hadc.
  rewrite !fTrajectory_run, !Messung_run. cbv zeta.
  unfold value_of. simpl.
  rewrite Hn, Hadc. repeat split; reflexivity.
Qed.

Lemma C10_output_is_measurement_witness :
  Arm.conversions (Examples.sketch_reading 300)
    = Arm.conversions (Examples.sketch_reading 300) /\
  (forall n, Arm.adc (Examples.sketch_reading 300) n
             = Arm.adc (Examples.sketch_reading 300) n) /\
  dOutput (snd (value_of
     (Arm.fTrajectory (mkBench 0) Examples.ramp_1_4 (Examples.sketch_reading 300))))
  = dOutput (snd (value_of
     (Arm.fTrajectory (mkBench 900) Examples.step_at_5 (Examples.sketch_reading 300)))).
Proof.
  split; [reflexivity | ]. split; [reflexivity | ].
  apply (C10_output_is_measurement
           (Examples.sketch_reading 300) (Examples.sketch_reading 300)
           (mkBench 0) (mkBench 900) Examples.ramp_1_4 Examples.step_at_5
           eq_refl (fun n => eq_refl)).
Defined.

(** * The control tick *)

Lemma spec_sendData_reports {D : Type} `{DoubleOps D} :
  sendData_reports (SpecTransport.ops (D := D)).
Proof. intros t. split; reflexivity. Qed.

Section HostTick.
Context {D : Type} `{DoubleOps D} {P : Type}.
Variable w : Z.
Variable ops : TransportOps D P.

Lemma host_tick_running (t : Transport D P) :
  runExp ops (handleFrames ops t) = true ->
  Host.fContLoop w ops t =
    (tt,
     sendData ops (Host.call_fTrajectory w (Host.advance w (handleFrames ops t))),
     [EvHandleFrames; EvRunExp true; EvTrajectory; EvSendData]).
Proof.
  intros Hrun. unfold Host.fContLoop.
  cbv [bind ret modify get emit]. rewrite Hrun. reflexivity.
Qed.

Lemma host_tick_idle (t : Transport D P) :
  runExp ops (handleFrames ops t) = false ->
  Host.fContLoop w ops t =
    (tt, handleFrames ops t, [EvHandleFrames; EvRunExp false]).
Proof.
  intros Hrun. unfold Host.fContLoop.
  cbv [bind ret modify get emit]. rewrite Hrun. reflexivity.
Qed.

Lemma host_call_fTrajectory_time (t : Transport D P) :
  _benchData (Host.call_fTrajectory w t) = _benchData t /\
  keepaliveTime (Host.call_fTrajectory w t) = keepaliveTime t.
Proof.
  unfold Host.call_fTrajectory, Host.fTrajectory.
  destruct (lTime (_benchData t) <? lStartTime (_trajData t)); [now split | ].
  destruct (lTime (_benchData t) <? lEndTime (_trajData t)); now split.
Qed.

Lemma host_tick_no_keepalive (t : Transport D P) :
  keepalive_checks (events_of (Host.fContLoop w ops t)) = 0%nat /\
  reset_called (events_of (Host.fContLoop w ops t)) = false.
Proof.
  destruct (runExp ops (handleFrames ops t)) eqn:Hrun.
  - rewrite host_tick_running by assumption. split; reflexivity.
  - rewrite host_tick_idle by assumption. split; reflexivity.
Qed.
End HostTick.

Section ArmTick.
Context {P : Type}.
Variable ops : TransportOps spec_float P.
Variable keepalive : Z.
Implicit Types s : @Arm.Sketch P.

Lemma arm_tick_idle s :
  runExp ops (Arm.transport s) = false ->
  Arm.fContLoop_with ops keepalive s = (tt, s, [EvInterrupts; EvRunExp false]).
Proof.
  intros Hrun. unfold Arm.fContLoop_with.
  cbv [bind ret modify get emit]. rewrite Hrun. reflexivity.
Qed.

Lemma arm_tick_running s :
  runExp ops (Arm.transport s) = true ->
  events_of (Arm.fContLoop_with ops keepalive s) =
    [EvInterrupts; EvRunExp true; EvTrajectory]
    ++ events_of (Arm.Messung s)
    ++ [EvSendData;
        EvKeepalive (lTime (_benchData (Arm.reported ops s))) (keepaliveTime (Arm.reported ops s))]
    ++ (if Arm.expired keepalive
             (lTime (_benchData (Arm.reported ops s))) (keepaliveTime (Arm.reported ops s))
        then [EvReset] else [])
  /\
  Arm.transport (state_of (Arm.fContLoop_with ops keepalive s)) =
    (if Arm.expired keepalive
          (lTime (_benchData (Arm.reported ops s))) (keepaliveTime (Arm.reported ops s))
     then reset ops (Arm.reported ops s) else Arm.reported ops s).
Proof.
  intros Hrun. unfold Arm.fContLoop_with, Arm.reported.
  cbv [bind ret modify get emit]. rewrite Hrun.
  rewrite fTrajectory_run. cbv zeta. rewrite !Messung_run.
  cbv [Arm.on_transport Arm.set_x Arm.transport Arm.sensorValue Arm.x Arm.y
       Arm.adc Arm.conversions state_of value_of events_of fst snd].
  destruct s as [sv gx gy t a n].
  cbv [Arm.on_transport Arm.set_x Arm.transport Arm.sensorValue Arm.x Arm.y
       Arm.adc Arm.conversions state_of value_of events_of fst snd].
  destruct (Arm.expired _ _ _); split; reflexivity.
Qed.

Hypothesis reports : sendData_reports ops.

Lemma reported_time s :
  lTime (_benchData (Arm.reported ops s))
    = wrap Arm.ULONG_BITS (lTime (_benchData (Arm.transport s)) + Arm.lDt) /\
  keepaliveTime (Arm.reported ops s) = keepaliveTime (Arm.transport s).
Proof.
  unfold Arm.reported. destruct (reports
    (set_trajData (Arm.advance (Arm.transport s))
       (set_dOutput (_trajData (Arm.transport s))
          (Arm.widen (value_of (Arm.Messung s)))))) as [Hb Hk].
  rewrite Hb, Hk. split; reflexivity.
Qed.
End ArmTick.

(** ** Keepalive *)

(** How an embedded tick ends: unchanged when the experiment is not
    running; otherwise with the reported transport, handed to [reset] if
    and only if [reset] was called. *)
Lemma embedded_tick_state {P : Type}
    (ops : TransportOps spec_float P) (T : Z) (s : @Arm.Sketch P) :
  sendData_reports ops ->
  (runExp ops (Arm.transport s) = false ->
     Arm.transport (state_of (Arm.fContLoop_with ops T s)) = Arm.transport s) /\
  (runExp ops (Arm.transport s) = true ->
     Arm.transport (state_of (Arm.fContLoop_with ops T s)) =
       if reset_called (events_of (Arm.fContLoop_with ops T s))
       then reset ops (Arm.reported ops s) else Arm.reported ops s).
Proof.
  intros Hrep. split; intros Hrun.
  - now rewrite arm_tick_idle.
  - destruct (arm_tick_running ops T s Hrun) as [Hev Hst].
    rewrite Hst, Hev, Messung_run. unfold events_of, snd.
    destruct (Arm.expired _ _ _); reflexivity.
Qed.

(** In a running tick [reset] is called exactly when the keepalive test
    succeeds on the advanced time. *)
Lemma embedded_reset_called {P : Type}
    (ops : TransportOps spec_float P) (T : Z) (s : @Arm.Sketch P) :
  sendData_reports ops ->
  runExp ops (Arm.transport s) = true ->
  reset_called (events_of (Arm.fContLoop_with ops T s)) =
    Arm.expired T
      (wrap Arm.ULONG_BITS (lTime (_benchData (Arm.transport s)) + Arm.lDt))
      (keepaliveTime (Arm.transport s)).
Proof.
  intros Hrep Hrun.
  destruct (reported_time ops Hrep s) as [Hnow Hlast].
  destruct (arm_tick_running ops T s Hrun) as [Hev _].
  rewrite Hev, Hnow, Hlast, Messung_run. clear Hev. unfold events_of, snd.
  destruct (Arm.expired _ _ _); reflexivity.
Qed.

Lemma expired_iff (T now last : Z) :
  0 < T ->
  Arm.expired T now last = true <-> now > wrap Arm.ULONG_BITS (last + T).
Proof.
  intros HT. unfold Arm.expired.
  replace (T =? 0) with false by (symmetry; apply Z.eqb_neq; lia).
  simpl. rewrite Z.gtb_ltb, Z.ltb_lt. lia.
Qed.

(** C2, as the code has it.  In a tick of the embedded loop with keepalive
    time [T]: with [T = 0] there is no reset; while the experiment is not
    running there is no reset either and the tick changes nothing; while
    it is running and [T > 0], [reset] is called exactly when the
    advanced [lTime] exceeds [keepaliveTime + T], both taken as 32-bit
    [unsigned long] sums, which is the comparison of the plain sums
    whenever neither overflows; and the tick ends with the transport
    [reset] returns in the first case and with its own otherwise. *)
Theorem C2_keepalive_tick {P : Type}
    (ops : TransportOps spec_float P) (T : Z) (s : @Arm.Sketch P) :
  sendData_reports ops ->
  (T = 0 -> reset_called (events_of (Arm.fContLoop_with ops T s)) = false) /\
  (runExp ops (Arm.transport s) = false ->
     reset_called (events_of (Arm.fContLoop_with ops T s)) = false /\
     state_of (Arm.fContLoop_with ops T s) = s) /\
  (0 < T -> runExp ops (Arm.transport s) = true ->
     (reset_called (events_of (Arm.fContLoop_with ops T s)) = true <->
      wrap Arm.ULONG_BITS (lTime (_benchData (Arm.transport s)) + Arm.lDt)
        > wrap Arm.ULONG_BITS (keepaliveTime (Arm.transport s) + T))) /\
  (0 < T -> runExp ops (Arm.transport s) = true ->
   in_range Arm.ULONG_BITS (lTime (_benchData (Arm.transport s)) + Arm.lDt) ->
   in_range Arm.ULONG_BITS (keepaliveTime (Arm.transport s) + T) ->
     (reset_called (events_of (Arm.fContLoop_with ops T s)) = true <->
      lTime (_benchData (Arm.transport s)) + Arm.lDt
        > keepaliveTime (Arm.transport s) + T)) /\
  (runExp ops (Arm.transport s) = true ->
     Arm.transport (state_of (Arm.fContLoop_with ops T s)) =
       if reset_called (events_of (Arm.fContLoop_with ops T s))
       then reset ops (Arm.reported ops s) else Arm.reported ops s).
Proof.
  intros Hrep.
  pose proof (embedded_reset_called ops T s Hrep) as Hcalled.
  destruct (embedded_tick_state ops T s Hrep) as [_ Hstate].
  assert (Hidle : runExp ops (Arm.transport s) = false ->
            reset_called (events_of (Arm.fContLoop_with ops T s)) = false /\
            state_of (Arm.fContLoop_with ops T s) = s).
  { intros Hrun. rewrite arm_tick_idle by assumption. split; reflexivity. }
  split; [ | split; [exact Hidle | split; [ | split]]].
  - intros ->. destruct (runExp ops (Arm.transport s)) eqn:Hrun.
    + rewrite Hcalled by reflexivity. reflexivity.
    + now apply Hidle.
  - intros HT Hrun. rewrite Hcalled by assumption. now apply expired_iff.
  - intros HT Hrun Hr1 Hr2. rewrite Hcalled by assumption.
    rewrite expired_iff by assumption. now rewrite !wrap_small by assumption.
  - exact Hstate.
Qed.

Lemma C2_keepalive_tick_witness :
  sendData_reports (SpecTransport.ops (D := spec_float)) /\
  0 < Arm.lKeepalive /\
  runExp SpecTransport.ops (Arm.transport (Examples.rig true 500 0)) = true /\
  (reset_called
     (events_of (Arm.fContLoop_with SpecTransport.ops Arm.lKeepalive
                   (Examples.rig true 500 0))) = true <->
   wrap Arm.ULONG_BITS 600 > wrap Arm.ULONG_BITS 500).
Proof.
  split; [intros t; split; reflexivity | ].
  split; [reflexivity | ]. split; [reflexivity | ].
  destruct (C2_keepalive_tick SpecTransport.ops Arm.lKeepalive
              (Examples.rig true 500 0) (fun t => conj eq_refl eq_refl))
    as (_ & _ & Hiff & _).
  exact (Hiff eq_refl eq_refl).
Defined.

(** C2 fails as stated, in both directions.  In a tick that finds the
    experiment not running, at elapsed time 1000 with the last activity at
    0 and the keepalive time of 500, the elapsed time after the tick
    exceeds the deadline and no reset is triggered.  And in a running
    tick at elapsed time 4294967100 with the last activity at 4294967000,
    the advanced time 4294967200 does not exceed the deadline 4294967500,
    but the 32-bit sum [keepaliveTime + lKeepalive] is 204 and the tick
    resets. *)
Lemma C2_counterexample :
  0 < Arm.lKeepalive /\
  (lTime (_benchData (Arm.transport
      (state_of (Arm.fContLoop SpecTransport.ops (Examples.rig false 1000 0)))))
     > keepaliveTime (Arm.transport (Examples.rig false 1000 0)) + Arm.lKeepalive /\
   reset_called
     (events_of (Arm.fContLoop SpecTransport.ops (Examples.rig false 1000 0))) = false) /\
  (in_range Arm.ULONG_BITS 4294967100 /\ in_range Arm.ULONG_BITS 4294967000 /\
   ~ 4294967100 + Arm.lDt > 4294967000 + Arm.lKeepalive /\
   reset_called
     (events_of (Arm.fContLoop SpecTransport.ops
                   (Examples.rig true 4294967100 4294967000))) = true).
Proof.
  split; [reflexivity | ]. split; [ | split; [ | split; [ | split]]].
  - split; vm_compute; reflexivity.
  - unfold in_range. vm_compute. split; [discriminate | reflexivity].
  - unfold in_range. vm_compute. split; [discriminate | reflexivity].
  - vm_compute. intros Hgt. discriminate Hgt.
  - vm_compute. reflexivity.
Qed.

(** C3, as the code has it.  A tick of the embedded loop that finds the
    experiment running executes the keepalive statement exactly once, as
    its last statement before a possible [reset]: after the time was
    advanced, [fTrajectory] has measured and [sendData] was called, and on
    the advanced [lTime].  A tick that finds the experiment not running
    does not execute it, and no tick of the host loop does. *)
Theorem C3_keepalive_placement {P : Type}
    (ops : TransportOps spec_float P) (T : Z) (s : @Arm.Sketch P)
    {D : Type} `{DoubleOps D} {P' : Type}
    (w : Z) (hops : TransportOps D P') (t : Transport D P') :
  sendData_reports ops ->
  (runExp ops (Arm.transport s) = true ->
     events_of (Arm.fContLoop_with ops T s) =
       [EvInterrupts; EvRunExp true; EvTrajectory]
       ++ events_of (Arm.Messung s)
       ++ [EvSendData;
           EvKeepalive
             (wrap Arm.ULONG_BITS (lTime (_benchData (Arm.transport s)) + Arm.lDt))
             (keepaliveTime (Arm.transport s))]
       ++ (if reset_called (events_of (Arm.fContLoop_with ops T s))
           then [EvReset] else [])
     /\ keepalive_checks (events_of (Arm.fContLoop_with ops T s)) = 1%nat) /\
  (runExp ops (Arm.transport s) = false ->
     keepalive_checks (events_of (Arm.fContLoop_with ops T s)) = 0%nat) /\
  keepalive_checks (events_of (Host.fContLoop w hops t)) = 0%nat.
Proof.
  intros Hrep.
  destruct (reported_time ops Hrep s) as [Hnow Hlast].
  split; [ | split].
  - intros Hrun. destruct (arm_tick_running ops T s Hrun) as [Hev _].
    rewrite Hnow, Hlast, Messung_run in Hev. rewrite Messung_run.
    set (ev := events_of (Arm.fContLoop_with ops T s)) in *. clearbody ev.
    unfold events_of, snd in *.
    destruct (Arm.expired _ _ _); subst ev; split; reflexivity.
  - intros Hrun. rewrite arm_tick_idle by assumption. reflexivity.
  - apply host_tick_no_keepalive.
Qed.

Lemma C3_keepalive_placement_witness :
  sendData_reports (SpecTransport.ops (D := spec_float)) /\
  runExp SpecTransport.ops (Arm.transport (Examples.rig true 500 0)) = true /\
  keepalive_checks
    (events_of (Arm.fContLoop_with SpecTransport.ops Arm.lKeepalive
                  (Examples.rig true 500 0))) = 1%nat.
Proof.
  split; [intros t; split; reflexivity | ]. split; [reflexivity | ].
  destruct (C3_keepalive_placement SpecTransport.ops Arm.lKeepalive
              (Examples.rig true 500 0) 64 SpecTransport.ops
              (Examples.session true 500 0) (fun t => conj eq_refl eq_refl))
    as (Hrun & _ & _).
  exact (proj2 (Hrun eq_refl)).
Defined.

(** C3 fails as stated: a tick of the host loop on a running experiment
    advances the time, computes the trajectory and sends, without any
    keepalive check; and a tick of the embedded loop that finds the
    experiment not running makes no check either. *)
Lemma C3_counterexample :
  events_of (Host.fContLoop 64 SpecTransport.ops (Examples.session true 500 0))
    = [EvHandleFrames; EvRunExp true; EvTrajectory; EvSendData] /\
  keepalive_checks
    (events_of (Host.fContLoop 64 SpecTransport.ops (Examples.session true 500 0)))
    <> 1%nat /\
  keepalive_checks
    (events_of (Arm.fContLoop SpecTransport.ops (Examples.rig false 500 0)))
    <> 1%nat.
Proof.
  split; [vm_compute; reflexivity | ].
  split; vm_compute; discriminate.
Qed.

(** ** Elapsed time *)

(** C7, as the code has it.  Embedded loop: a tick that finds the
    experiment not running leaves the transport, and with it [lTime],
    unchanged; a tick that finds it running advances [lTime] by [lDt]
    (modulo 2^32, so by exactly [lDt] unless the sum overflows), and this
    is the value at the end of the tick unless the keepalive has expired,
    in which case the tick ends with the transport [reset] makes of it.
    Host loop: with [t0] the transport after [handleFrames], a tick ends
    with [lTime t0] when the experiment is not running and with
    [lTime t0 + lDt] (modulo 2^w) when it is.  [fTrajectory] itself leaves
    [lTime] alone in both servers. *)
Theorem C7_time_advance {P : Type}
    (ops : TransportOps spec_float P) (T : Z) (s : @Arm.Sketch P)
    {D : Type} `{DoubleOps D} {P' : Type}
    (w : Z) (hops : TransportOps D P') (t : Transport D P') :
  sendData_reports ops -> sendData_reports hops ->
  (runExp ops (Arm.transport s) = false ->
     Arm.transport (state_of (Arm.fContLoop_with ops T s)) = Arm.transport s) /\
  (runExp ops (Arm.transport s) = true ->
   reset_called (events_of (Arm.fContLoop_with ops T s)) = false ->
     lTime (_benchData (Arm.transport (state_of (Arm.fContLoop_with ops T s))))
       = wrap Arm.ULONG_BITS (lTime (_benchData (Arm.transport s)) + Arm.lDt) /\
     (in_range Arm.ULONG_BITS (lTime (_benchData (Arm.transport s)) + Arm.lDt) ->
      lTime (_benchData (Arm.transport (state_of (Arm.fContLoop_with ops T s))))
        = lTime (_benchData (Arm.transport s)) + Arm.lDt)) /\
  (runExp ops (Arm.transport s) = true ->
   reset_called (events_of (Arm.fContLoop_with ops T s)) = true ->
     lTime (_benchData (Arm.reported ops s))
       = wrap Arm.ULONG_BITS (lTime (_benchData (Arm.transport s)) + Arm.lDt) /\
     Arm.transport (state_of (Arm.fContLoop_with ops T s))
       = reset ops (Arm.reported ops s)) /\
  lTime (_benchData (state_of (Host.fContLoop w hops t)))
    = (if runExp hops (handleFrames hops t)
       then wrap w (lTime (_benchData (handleFrames hops t)) + Host.lDt)
       else lTime (_benchData (handleFrames hops t))) /\
  (runExp hops (handleFrames hops t) = true ->
   in_range w (lTime (_benchData (handleFrames hops t)) + Host.lDt) ->
   lTime (_benchData (state_of (Host.fContLoop w hops t)))
     = lTime (_benchData (handleFrames hops t)) + Host.lDt) /\
  (forall b td, lTime (bench_after (Host.fTrajectory w b td)) = lTime b) /\
  (forall b td, Arm.transport (state_of (Arm.fTrajectory b td s)) = Arm.transport s).
Proof.
  intros Hrep Hhrep.
  destruct (reported_time ops Hrep s) as [Hnow Hlast].
  destruct (embedded_tick_state ops T s Hrep) as [Hidle Hfinal].
  assert (Hhost : lTime (_benchData (state_of (Host.fContLoop w hops t)))
            = (if runExp hops (handleFrames hops t)
               then wrap w (lTime (_benchData (handleFrames hops t)) + Host.lDt)
               else lTime (_benchData (handleFrames hops t)))).
  { destruct (runExp hops (handleFrames hops t)) eqn:Hrun.
    - rewrite host_tick_running by assumption. unfold state_of, fst, snd.
      destruct (Hhrep (Host.call_fTrajectory w (Host.advance w (handleFrames hops t))))
        as [Hb _].
      rewrite Hb. destruct (host_call_fTrajectory_time w
        (Host.advance w (handleFrames hops t))) as [Hb' _].
      rewrite Hb'. reflexivity.
    - rewrite host_tick_idle by assumption. reflexivity. }
  split; [exact Hidle | ].
  split.
  { intros Hrun Hnr. rewrite (Hfinal Hrun), Hnr. split; [exact Hnow | ].
    intros Hr. rewrite Hnow. now apply wrap_small. }
  split.
  { intros Hrun Hr. rewrite (Hfinal Hrun), Hr. split; [exact Hnow | reflexivity]. }
  split; [exact Hhost | ].
  split.
  { intros Hrun Hr. rewrite Hhost, Hrun. now apply wrap_small. }
  split.
  - intros b td. unfold Host.fTrajectory.
    destruct (lTime b <? lStartTime td); [reflexivity | ].
    destruct (lTime b <? lEndTime td); reflexivity.
  - intros b td. rewrite fTrajectory_run, Messung_run. reflexivity.
Qed.

Lemma C7_time_advance_witness :
  sendData_reports (SpecTransport.ops (D := spec_float)) /\
  runExp SpecTransport.ops (Arm.transport (Examples.rig true 300 0)) = true /\
  reset_called
    (events_of (Arm.fContLoop_with SpecTransport.ops Arm.lKeepalive
                  (Examples.rig true 300 0))) = false /\
  in_range Arm.ULONG_BITS
    (lTime (_benchData (Arm.transport (Examples.rig true 300 0))) + Arm.lDt) /\
  lTime (_benchData (Arm.transport
     (state_of (Arm.fContLoop_with SpecTransport.ops Arm.lKeepalive
                  (Examples.rig true 300 0)))))
    = 300 + Arm.lDt /\
  runExp SpecTransport.ops
    (handleFrames SpecTransport.ops (Examples.session true 300 0)) = true /\
  in_range 64
    (lTime (_benchData (handleFrames SpecTransport.ops (Examples.session true 300 0)))
     + Host.lDt) /\
  lTime (_benchData
     (state_of (Host.fContLoop 64 SpecTransport.ops (Examples.session true 300 0))))
    = 300 + Host.lDt.
Proof.
  assert (Hr : in_range Arm.ULONG_BITS
            (lTime (_benchData (Arm.transport (Examples.rig true 300 0))) + Arm.lDt)).
  { unfold in_range. vm_compute. split; [discriminate | reflexivity]. }
  assert (Hr' : in_range 64
            (lTime (_benchData
               (handleFrames SpecTransport.ops (Examples.session true 300 0)))
             + Host.lDt)).
  { unfold in_range. vm_compute. split; [discriminate | reflexivity]. }
  destruct (C7_time_advance SpecTransport.ops Arm.lKeepalive
              (Examples.rig true 300 0) 64 SpecTransport.ops
              (Examples.session true 300 0)
              (fun t => conj eq_refl eq_refl) (fun t => conj eq_refl eq_refl))
    as (_ & Harm & _ & _ & Hhost & _).
  split; [intros t; split; reflexivity | ].
  split; [reflexivity | ]. split; [reflexivity | ].
  split; [exact Hr | ].
  split; [exact (proj2 (Harm eq_refl eq_refl) Hr) | ].
  split; [reflexivity | ]. split; [exact Hr' | ].
  exact (Hhost eq_refl Hr').
Defined.

(** C7 fails as stated.  A tick of the embedded loop on a running
    experiment at elapsed time 600, with the last activity at time 0,
    advances the time to 700, finds the keepalive of 500 expired and
    resets; the tick ends at elapsed time 0, which is neither the time
    it started with nor that time plus [lDt].  And a tick on a running
    experiment at elapsed time 4294967200, with the last activity at that
    same time, does not reset and ends at elapsed time 4: the 32-bit sum
    has wrapped around. *)
Lemma C7_counterexample :
  (runExp SpecTransport.ops (Arm.transport (Examples.rig true 600 0)) = true /\
   lTime (_benchData (Arm.transport
      (state_of (Arm.fContLoop SpecTransport.ops (Examples.rig true 600 0))))) = 0 /\
   0 <> lTime (_benchData (Arm.transport (Examples.rig true 600 0))) /\
   0 <> lTime (_benchData (Arm.transport (Examples.rig true 600 0))) + Arm.lDt) /\
  (runExp SpecTransport.ops
     (Arm.transport (Examples.rig true 4294967200 4294967200)) = true /\
   in_range Arm.ULONG_BITS 4294967200 /\
   reset_called
     (events_of (Arm.fContLoop SpecTransport.ops
                   (Examples.rig true 4294967200 4294967200))) = false /\
   lTime (_benchData (Arm.transport
      (state_of (Arm.fContLoop SpecTransport.ops
                   (Examples.rig true 4294967200 4294967200))))) = 4 /\
   4 <> 4294967200 /\ 4 <> 4294967200 + Arm.lDt).
Proof.
  split.
  - split; [reflexivity | ]. split; [vm_compute; reflexivity | ].
    split; vm_compute; discriminate.
  - split; [reflexivity | ].
    split; [unfold in_range; vm_compute; split; [discriminate | reflexivity] | ].
    split; [vm_compute; reflexivity | ].
    split; [vm_compute; reflexivity | ].
    split; vm_compute; discriminate.
Qed.

(** ** The first tick past the deadline

    On the transport of the specification, with no inbound activity
    between the ticks: the embedded loop keeps running as long as the
    advanced time stays within the deadline, and the first tick that
    advances the time past it resets and stops the experiment. *)

Section Deadline.
Variable T : Z.
Hypothesis T_positive : 0 < T.
Implicit Types s : @Arm.Sketch (SpecTransport.Session spec_float).

Lemma spec_tick_alive s :
  runExp SpecTransport.ops (Arm.transport s) = true ->
  in_range Arm.ULONG_BITS (lTime (_benchData (Arm.transport s)) + Arm.lDt) ->
  in_range Arm.ULONG_BITS (keepaliveTime (Arm.transport s) + T) ->
  lTime (_benchData (Arm.transport s)) + Arm.lDt
    <= keepaliveTime (Arm.transport s) + T ->
  reset_called (events_of (Arm.fContLoop_with SpecTransport.ops T s)) = false /\
  runExp SpecTransport.ops
    (Arm.transport (state_of (Arm.fContLoop_with SpecTransport.ops T s))) = true /\
  lTime (_benchData
    (Arm.transport (state_of (Arm.fContLoop_with SpecTransport.ops T s))))
    = lTime (_benchData (Arm.transport s)) + Arm.lDt /\
  keepaliveTime
    (Arm.transport (state_of (Arm.fContLoop_with SpecTransport.ops T s)))
    = keepaliveTime (Arm.transport s).
Proof.
  intros Hrun Hl Hk Hle.
  assert (Hcalled : reset_called
            (events_of (Arm.fContLoop_with SpecTransport.ops T s)) = false).
  { rewrite embedded_reset_called by (assumption || apply spec_sendData_reports).
    apply not_true_is_false. rewrite expired_iff by assumption.
    rewrite !wrap_small by assumption. lia. }
  destruct (embedded_tick_state SpecTransport.ops T s spec_sendData_reports)
    as [_ Hst].
  rewrite (Hst Hrun), Hcalled.
  split; [reflexivity | ]. split; [exact Hrun | ].
  split; [ | reflexivity].
  cbn. now apply wrap_small.
Qed.

Lemma spec_tick_expires s :
  runExp SpecTransport.ops (Arm.transport s) = true ->
  in_range Arm.ULONG_BITS (lTime (_benchData (Arm.transport s)) + Arm.lDt) ->
  in_range Arm.ULONG_BITS (keepaliveTime (Arm.transport s) + T) ->
  lTime (_benchData (Arm.transport s)) + Arm.lDt
    > keepaliveTime (Arm.transport s) + T ->
  reset_called (events_of (Arm.fContLoop_with SpecTransport.ops T s)) = true /\
  runExp SpecTransport.ops
    (Arm.transport (state_of (Arm.fContLoop_with SpecTransport.ops T s))) = false.
Proof.
  intros Hrun Hl Hk Hgt.
  assert (Hcalled : reset_called
            (events_of (Arm.fContLoop_with SpecTransport.ops T s)) = true).
  { rewrite embedded_reset_called by (assumption || apply spec_sendData_reports).
    rewrite expired_iff by assumption.
    rewrite !wrap_small by assumption. lia. }
  destruct (embedded_tick_state SpecTransport.ops T s spec_sendData_reports)
    as [_ Hst].
  rewrite (Hst Hrun), Hcalled. split; reflexivity.
Qed.

(** With the deadline [keepaliveTime + T] between the [n]-th and the
    [n+1]-st advance of the time, [n] ticks pass without a reset and leave
    the experiment running, and the next one resets and stops it. *)
Lemma keepalive_first_expiry (n : nat) : forall s,
  runExp SpecTransport.ops (Arm.transport s) = true ->
  0 <= lTime (_benchData (Arm.transport s)) ->
  in_range Arm.ULONG_BITS (keepaliveTime (Arm.transport s) + T) ->
  in_range Arm.ULONG_BITS
    (lTime (_benchData (Arm.transport s)) + (Z.of_nat n + 1) * Arm.lDt) ->
  lTime (_benchData (Arm.transport s)) + Z.of_nat n * Arm.lDt
    <= keepaliveTime (Arm.transport s) + T
    < lTime (_benchData (Arm.transport s)) + (Z.of_nat n + 1) * Arm.lDt ->
  (reset_called (snd (Arm.ticks SpecTransport.ops T n s)) = false /\
   runExp SpecTransport.ops
     (Arm.transport (fst (Arm.ticks SpecTransport.ops T n s))) = true) /\
  (reset_called (snd (Arm.ticks SpecTransport.ops T (S n) s)) = true /\
   runExp SpecTransport.ops
     (Arm.transport (fst (Arm.ticks SpecTransport.ops T (S n) s))) = false).
Proof.
  induction n as [ | n IH]; intros s Hrun Hl0 Hk Hl Hdead.
  - change (Z.of_nat 0) with 0 in *.
    split; [split; [reflexivity | exact Hrun] | ].
    destruct (spec_tick_expires s Hrun) as [Hc Hr];
      try (unfold in_range, Arm.lDt in *; lia).
    cbn [Arm.ticks fst snd]. rewrite app_nil_r. split; assumption.
  - rewrite Nat2Z.inj_succ in Hl, Hdead.
    destruct (spec_tick_alive s Hrun) as (Hc & Hr & Ht & Hka);
      try (unfold in_range, Arm.lDt in *; lia).
    destruct (IH (state_of (Arm.fContLoop_with SpecTransport.ops T s)))
      as [[Hc1 Hr1] [Hc2 Hr2]].
    + exact Hr.
    + rewrite Ht. unfold Arm.lDt. lia.
    + now rewrite Hka.
    + rewrite Ht. unfold in_range, Arm.lDt in *. lia.
    + rewrite Ht, Hka. unfold Arm.lDt in *. lia.
    + split.
      * change (Arm.ticks SpecTransport.ops T (S n) s)
          with (fst (Arm.ticks SpecTransport.ops T n
                       (state_of (Arm.fContLoop_with SpecTransport.ops T s))),
                events_of (Arm.fContLoop_with SpecTransport.ops T s)
                ++ snd (Arm.ticks SpecTransport.ops T n
                       (state_of (Arm.fContLoop_with SpecTransport.ops T s)))).
        cbn [fst snd]. unfold reset_called in *.
        rewrite existsb_app, Hc, Hc1. split; [reflexivity | exact Hr1].
      * change (Arm.ticks SpecTransport.ops T (S (S n)) s)
          with (fst (Arm.ticks SpecTransport.ops T (S n)
                       (state_of (Arm.fContLoop_with SpecTransport.ops T s))),
                events_of (Arm.fContLoop_with SpecTransport.ops T s)
                ++ snd (Arm.ticks SpecTransport.ops T (S n)
                       (state_of (Arm.fContLoop_with SpecTransport.ops T s)))).
        cbn [fst snd]. unfold reset_called in *.
        rewrite existsb_app, Hc, Hc2. split; [reflexivity | exact Hr2].
Qed.
End Deadline.

(** * More on the host trajectory function *)

(** X1: whatever the descriptor, as long as its times are [unsigned long]
    values, a call never divides by zero.  It divides at most once, exactly
    when [lStartTime <= lTime < lEndTime], and the divisor is then the
    positive difference [lEndTime - lStartTime] itself: the unsigned
    subtraction does not wrap around. *)
Theorem X1_division_is_safe {D : Type} `{DoubleOps D}
    (w : Z) (b : benchData) (td : trajData D) :
  in_range w (lStartTime td) -> in_range w (lEndTime td) ->
  ~ divides_by_zero (Host.fTrajectory w b td) /\
  (lStartTime td <= lTime b < lEndTime td ->
     divisors (Host.fTrajectory w b td) = [lEndTime td - lStartTime td] /\
     0 < lEndTime td - lStartTime td) /\
  (~ lStartTime td <= lTime b < lEndTime td ->
     divisors (Host.fTrajectory w b td) = []).
Proof.
  intros Hs He. split; [now apply fTrajectory_never_divides_by_zero | ].
  split.
  - intros Ht. rewrite fTrajectory_ramp by assumption. cbv zeta. simpl.
    rewrite wrap_small by (unfold in_range in *; lia). split; [reflexivity | lia].
  - intros Ht. destruct (fTrajectory_cases b td) as [Hc | [Hc | [Hc1 Hc2]]].
    + now rewrite fTrajectory_hold.
    + contradiction.
    + now rewrite fTrajectory_post.
Qed.

Lemma X1_division_is_safe_witness :
  in_range 64 (lStartTime Examples.ramp_1_4) /\
  in_range 64 (lEndTime Examples.ramp_1_4) /\
  lStartTime Examples.ramp_1_4 <= lTime (mkBench 2) < lEndTime Examples.ramp_1_4 /\
  ~ divides_by_zero (Host.fTrajectory 64 (mkBench 2) Examples.ramp_1_4) /\
  divisors (Host.fTrajectory 64 (mkBench 2) Examples.ramp_1_4) = [4 - 1] /\
  0 < 4 - 1 /\
  (~ lStartTime Examples.ramp_1_4 <= lTime (mkBench 7) < lEndTime Examples.ramp_1_4 /\
   divisors (Host.fTrajectory 64 (mkBench 7) Examples.ramp_1_4) = []).
Proof.
  assert (Hs : in_range 64 (lStartTime Examples.ramp_1_4))
    by (unfold in_range; simpl; lia).
  assert (He : in_range 64 (lEndTime Examples.ramp_1_4))
    by (unfold in_range; simpl; lia).
  assert (Ht : lStartTime Examples.ramp_1_4 <= lTime (mkBench 2)
               < lEndTime Examples.ramp_1_4) by (simpl; lia).
  assert (Ht' : ~ lStartTime Examples.ramp_1_4 <= lTime (mkBench 7)
                  < lEndTime Examples.ramp_1_4) by (simpl; lia).
  destruct (X1_division_is_safe 64 (mkBench 2) Examples.ramp_1_4 Hs He)
    as (Hsafe & Hramp & _).
  destruct (X1_division_is_safe 64 (mkBench 7) Examples.ramp_1_4 Hs He)
    as (_ & _ & Hhold).
  destruct (Hramp Ht) as [Hdiv Hpos].
  split; [exact Hs | ]. split; [exact He | ]. split; [exact Ht | ].
  split; [exact Hsafe | ]. split; [exact Hdiv | ]. split; [exact Hpos | ].
  split; [exact Ht' | exact (Hhold Ht')].
Defined.

(** X2: a descriptor whose end time is not after its start time is not
    rejected; it makes a step at the start time.  The call never
    interpolates, commands the start value before [lStartTime] and the end
    value from [lStartTime] on, and the end time plays no role. *)
Theorem X2_inverted_descriptor_steps {D : Type} `{DoubleOps D}
    (w : Z) (b : benchData) (td : trajData D) :
  lEndTime td <= lStartTime td ->
  divisors (Host.fTrajectory w b td) = [] /\
  (lTime b < lStartTime td -> Host.commanded w b td = dStartValue td) /\
  (lStartTime td <= lTime b -> Host.commanded w b td = dEndValue td).
Proof.
  intros Hes. unfold Host.commanded.
  destruct (Z.lt_ge_cases (lTime b) (lStartTime td)) as [Hlt | Hge].
  - rewrite fTrajectory_hold by assumption. simpl.
    split; [reflexivity | ]. split; [reflexivity | lia].
  - rewrite fTrajectory_post by lia. simpl.
    split; [reflexivity | ]. split; [lia | reflexivity].
Qed.

Lemma X2_inverted_descriptor_steps_witness :
  lEndTime Examples.inverted <= lStartTime Examples.inverted /\
  divisors (Host.fTrajectory 64 (mkBench 6) Examples.inverted) = [] /\
  Host.commanded 64 (mkBench 6) Examples.inverted = dStartValue Examples.inverted /\
  Host.commanded 64 (mkBench 9) Examples.inverted = dEndValue Examples.inverted.
Proof.
  assert (Hes : lEndTime Examples.inverted <= lStartTime Examples.inverted)
    by (simpl; lia).
  split; [exact Hes | ].
  destruct (X2_inverted_descriptor_steps 64 (mkBench 6) Examples.inverted Hes)
    as (Hdiv & Hbefore & _).
  destruct (X2_inverted_descriptor_steps 64 (mkBench 9) Examples.inverted Hes)
    as (_ & _ & Hafter).
  split; [exact Hdiv | ]. split.
  - apply Hbefore. simpl. lia.
  - apply Hafter. simpl. lia.
Defined.

(** ** The direction of the trajectory in binary64 *)

(** X4: in binary64, rounding never reverses the trajectory within a
    phase.  For in-range times with [lStartTime < lEndTime], start and
    end value finite [double]s, and two calls at elapsed times
    [t <= t']: before the start time both command the start value; from
    the end time on both command the end value; one before the start
    and one from the end on command the start and the end value; and
    over the whole interpolation branch, the start time included, the
    commanded values, wherever they are numbers, are in the order of
    the ramp.  (At the start time the value can miss the start value,
    but no later value of the branch lies on the wrong side of it.) *)
Theorem X4_rounding_keeps_the_direction
    (vs ve : Q) (w : Z) (td : trajData spec_float) (b b' : benchData) (q q' : Q) :
  in_range w (lStartTime td) -> in_range w (lEndTime td) ->
  lStartTime td < lEndTime td ->
  lTime b <= lTime b' ->
  valid_binary Binary64.prec Binary64.emax (dStartValue td) = true ->
  valid_binary Binary64.prec Binary64.emax (dEndValue td) = true ->
  Binary64.to_Q (dStartValue td) = Some vs ->
  Binary64.to_Q (dEndValue td) = Some ve ->
  Binary64.to_Q (Host.commanded w b td) = Some q ->
  Binary64.to_Q (Host.commanded w b' td) = Some q' ->
  (lTime b' < lStartTime td -> q = vs /\ q' = vs) /\
  (lEndTime td <= lTime b -> q = ve /\ q' = ve) /\
  (lTime b < lStartTime td -> lEndTime td <= lTime b' -> q = vs /\ q' = ve) /\
  (lStartTime td <= lTime b -> lTime b' < lEndTime td ->
     ((vs <= ve)%Q -> (q <= q')%Q) /\ ((ve <= vs)%Q -> (q' <= q)%Q)).
Proof.
  intros Hs He Hse Hle Vs Ve Hvs Hve Hq Hq'.
  split; [ | split; [ | split]].
  - intros Ht. unfold Host.commanded in Hq, Hq'.
    rewrite fTrajectory_hold in Hq, Hq' by lia. cbn in Hq, Hq'.
    rewrite Hvs in Hq, Hq'. injection Hq as <-. injection Hq' as <-. now split.
  - intros Ht. unfold Host.commanded in Hq, Hq'.
    rewrite fTrajectory_post in Hq, Hq' by lia. cbn in Hq, Hq'.
    rewrite Hve in Hq, Hq'. injection Hq as <-. injection Hq' as <-. now split.
  - intros Ht Ht'. unfold Host.commanded in Hq, Hq'.
    rewrite fTrajectory_hold in Hq by lia.
    rewrite fTrajectory_post in Hq' by lia. cbn in Hq, Hq'.
    rewrite Hvs in Hq. rewrite Hve in Hq'.
    injection Hq as <-. injection Hq' as <-. now split.
  - intros Ht Ht'.
    apply (ramp_monotone w td vs ve Hs He Vs Ve Hvs Hve b b' q q');
      [exact Ht | exact Hle | exact Ht' | exact Hq | exact Hq'].
Qed.

(** The ramp from 0.0 to 1.0 between times 1 and 4: at the start time
    the call commands 2^-54, not 0.0, and at elapsed time 3 a larger
    value. *)
Lemma X4_rounding_keeps_the_direction_witness :
  in_range 64 (lStartTime Examples.ramp_1_4) /\
  in_range 64 (lEndTime Examples.ramp_1_4) /\
  lStartTime Examples.ramp_1_4 < lEndTime Examples.ramp_1_4 /\
  lTime (mkBench 1) <= lTime (mkBench 3) /\
  valid_binary Binary64.prec Binary64.emax (dStartValue Examples.ramp_1_4) = true /\
  valid_binary Binary64.prec Binary64.emax (dEndValue Examples.ramp_1_4) = true /\
  Binary64.to_Q (dStartValue Examples.ramp_1_4) = Some 0%Q /\
  Binary64.to_Q (dEndValue Examples.ramp_1_4)
    = Some (inject_Z 4503599627370496 * 2 ^ (-52))%Q /\
  Binary64.to_Q (Host.commanded 64 (mkBench 1) Examples.ramp_1_4)
    = Some (inject_Z 4503599627370496 * 2 ^ (-106))%Q /\
  Binary64.to_Q (Host.commanded 64 (mkBench 3) Examples.ramp_1_4)
    = Some (inject_Z 6004799503160662 * 2 ^ (-53))%Q /\
  (inject_Z 4503599627370496 * 2 ^ (-106)
     <= inject_Z 6004799503160662 * 2 ^ (-53))%Q.
Proof.
  assert (Hs : in_range 64 (lStartTime Examples.ramp_1_4))
    by (unfold in_range; simpl; lia).
  assert (He : in_range 64 (lEndTime Examples.ramp_1_4))
    by (unfold in_range; simpl; lia).
  assert (Hse : lStartTime Examples.ramp_1_4 < lEndTime Examples.ramp_1_4)
    by (simpl; lia).
  assert (Hle : lTime (mkBench 1) <= lTime (mkBench 3)) by (simpl; lia).
  assert (Vs : valid_binary Binary64.prec Binary64.emax
                 (dStartValue Examples.ramp_1_4) = true) by reflexivity.
  assert (Ve : valid_binary Binary64.prec Binary64.emax
                 (dEndValue Examples.ramp_1_4) = true) by (vm_compute; reflexivity).
  assert (Hvs : Binary64.to_Q (dStartValue Examples.ramp_1_4) = Some 0%Q)
    by reflexivity.
  assert (Hve : Binary64.to_Q (dEndValue Examples.ramp_1_4)
                = Some (inject_Z 4503599627370496 * 2 ^ (-52))%Q)
    by (vm_compute; reflexivity).
  assert (Hq : Binary64.to_Q (Host.commanded 64 (mkBench 1) Examples.ramp_1_4)
               = Some (inject_Z 4503599627370496 * 2 ^ (-106))%Q)
    by (vm_compute; reflexivity).
  assert (Hq' : Binary64.to_Q (Host.commanded 64 (mkBench 3) Examples.ramp_1_4)
                = Some (inject_Z 6004799503160662 * 2 ^ (-53))%Q)
    by (vm_compute; reflexivity).
  destruct (X4_rounding_keeps_the_direction _ _ 64 Examples.ramp_1_4
              (mkBench 1) (mkBench 3) _ _ Hs He Hse Hle Vs Ve Hvs Hve Hq Hq')
    as (_ & _ & _ & Hramp).
  destruct (Hramp ltac:(simpl; lia) ltac:(simpl; lia)) as [Hup _].
  split; [exact Hs | ]. split; [exact He | ]. split; [exact Hse | ].
  split; [exact Hle | ]. split; [exact Vs | ]. split; [exact Ve | ].
  split; [exact Hvs | ]. split; [exact Hve | ]. split; [exact Hq | ].
  split; [exact Hq' | ].
  apply Hup. vm_compute. discriminate.
Defined.

(** * More on the control tick *)

Lemma fTrajectory_frame {D : Type} `{DoubleOps D}
    (w : Z) (b : benchData) (td : trajData D) :
  bench_after (Host.fTrajectory w b td) = b /\
  traj_after (Host.fTrajectory w b td) = set_dOutput td (Host.commanded w b td).
Proof.
  unfold Host.commanded, Host.fTrajectory.
  destruct (lTime b <? lStartTime td); [now split | ].
  destruct (lTime b <? lEndTime td); now split.
Qed.

(** X5: the anatomy of a host tick.  [handleFrames] runs first, in every
    tick, and [runExp] is asked on the transport it leaves, so a command
    taken from the queue in a tick already decides that tick.  If the
    experiment runs, [sendData] is called once, on a transport whose time
    is advanced by [lDt], whose [dOutput] is the trajectory at that
    advanced time, and whose descriptor, keepalive stamp and internals
    are as [handleFrames] left them.  If it does not run, the tick ends
    with the transport [handleFrames] left, and nothing is computed or
    sent. *)
Theorem X5_host_tick_anatomy {D : Type} `{DoubleOps D} {P : Type}
    (w : Z) (ops : TransportOps D P) (t : Transport D P) :
  (runExp ops (handleFrames ops t) = true ->
     exists pre,
       state_of (Host.fContLoop w ops t) = sendData ops pre /\
       lTime (_benchData pre)
         = wrap w (lTime (_benchData (handleFrames ops t)) + Host.lDt) /\
       _trajData pre
         = set_dOutput (_trajData (handleFrames ops t))
             (Host.commanded w (_benchData pre) (_trajData (handleFrames ops t))) /\
       keepaliveTime pre = keepaliveTime (handleFrames ops t) /\
       internals pre = internals (handleFrames ops t) /\
       events_of (Host.fContLoop w ops t)
         = [EvHandleFrames; EvRunExp true; EvTrajectory; EvSendData]) /\
  (runExp ops (handleFrames ops t) = false ->
     state_of (Host.fContLoop w ops t) = handleFrames ops t /\
     events_of (Host.fContLoop w ops t) = [EvHandleFrames; EvRunExp false]).
Proof.
  split; intros Hrun.
  - rewrite host_tick_running by assumption.
    exists (Host.call_fTrajectory w (Host.advance w (handleFrames ops t))).
    split; [reflexivity | ].
    unfold Host.call_fTrajectory.
    destruct (fTrajectory_frame w (_benchData (Host.advance w (handleFrames ops t)))
                (_trajData (Host.advance w (handleFrames ops t)))) as [Hb Ht].
    rewrite Hb, Ht. repeat split; reflexivity.
  - rewrite host_tick_idle by assumption. split; reflexivity.
Qed.

Lemma X5_host_tick_anatomy_witness :
  runExp SpecTransport.ops
    (handleFrames SpecTransport.ops (Examples.session true 300 0)) = true /\
  (exists pre,
     state_of (Host.fContLoop 64 SpecTransport.ops (Examples.session true 300 0))
       = sendData SpecTransport.ops pre /\
     lTime (_benchData pre) = 1300 /\
     keepaliveTime pre = 0) /\
  runExp SpecTransport.ops
    (handleFrames SpecTransport.ops (Examples.session false 300 0)) = false /\
  state_of (Host.fContLoop 64 SpecTransport.ops (Examples.session false 300 0))
    = handleFrames SpecTransport.ops (Examples.session false 300 0) /\
  events_of (Host.fContLoop 64 SpecTransport.ops (Examples.session false 300 0))
    = [EvHandleFrames; EvRunExp false].
Proof.
  split; [reflexivity | ]. split.
  - destruct (proj1 (X5_host_tick_anatomy 64 SpecTransport.ops
                       (Examples.session true 300 0)) eq_refl)
      as (pre & Hst & Ht & _ & Hk & _).
    exists pre. split; [exact Hst | ]. split; [exact Ht | exact Hk].
  - split; [reflexivity | ].
    exact (proj2 (X5_host_tick_anatomy 64 SpecTransport.ops
                    (Examples.session false 300 0)) eq_refl).
Defined.

Section ArmTickState.
Context {P : Type}.
Variable ops : TransportOps spec_float P.
Variable keepalive : Z.
Implicit Types s : @Arm.Sketch P.

(** What a running tick leaves of the sketch's own state. *)
Lemma arm_tick_running_globals s :
  runExp ops (Arm.transport s) = true ->
  Arm.adc (state_of (Arm.fContLoop_with ops keepalive s)) = Arm.adc s /\
  Arm.conversions (state_of (Arm.fContLoop_with ops keepalive s))
    = S (S (Arm.conversions s)) /\
  Arm.sensorValue (state_of (Arm.fContLoop_with ops keepalive s))
    = Arm.adc s (S (Arm.conversions s)) /\
  Arm.x (state_of (Arm.fContLoop_with ops keepalive s))
    = Arm.widen (Arm.narrow (Arm.calibrate_x (Arm.adc s (S (Arm.conversions s))))) /\
  Arm.y (state_of (Arm.fContLoop_with ops keepalive s))
    = Arm.calibrate_y (Arm.adc s (Arm.conversions s)).
Proof.
  intros Hrun. unfold Arm.fContLoop_with.
  cbv [bind ret modify get emit]. rewrite Hrun.
  rewrite fTrajectory_run. cbv zeta. rewrite !Messung_run.
  destruct s as [sv gx gy t a n].
  cbv [Arm.on_transport Arm.set_x Arm.transport Arm.sensorValue Arm.x Arm.y
       Arm.adc Arm.conversions state_of value_of events_of fst snd].
  destruct (Arm.expired _ _ _); repeat split; reflexivity.
Qed.
End ArmTickState.

(** ** Ticks in a row *)

Section ArmTicks.
Context {P : Type}.
Variable ops : TransportOps spec_float P.
Variable T : Z.
Implicit Types s : @Arm.Sketch P.

Lemma ticks_snoc (n : nat) : forall s,
  Arm.ticks ops T (S n) s =
    (state_of (Arm.fContLoop_with ops T (fst (Arm.ticks ops T n s))),
     snd (Arm.ticks ops T n s)
     ++ events_of (Arm.fContLoop_with ops T (fst (Arm.ticks ops T n s)))).
Proof.
  induction n as [ | n IH]; intros s.
  - cbn [Arm.ticks fst snd]. now rewrite app_nil_r.
  - change (Arm.ticks ops T (S (S n)) s)
      with (fst (Arm.ticks ops T (S n) (state_of (Arm.fContLoop_with ops T s))),
            events_of (Arm.fContLoop_with ops T s)
            ++ snd (Arm.ticks ops T (S n) (state_of (Arm.fContLoop_with ops T s)))).
    rewrite IH. cbn [Arm.ticks fst snd]. now rewrite app_assoc.
Qed.

Lemma ticks_idle (n : nat) s :
  runExp ops (Arm.transport s) = false ->
  Arm.ticks ops T n s
    = (s, concat (repeat [EvInterrupts; EvRunExp false] n)).
Proof.
  intros Hrun. induction n as [ | n IH]; [reflexivity | ].
  cbn [Arm.ticks]. rewrite arm_tick_idle by assumption.
  unfold state_of, events_of. cbn [fst snd]. rewrite IH. reflexivity.
Qed.

Hypothesis T_positive : 0 < T.
Hypothesis reports : sendData_reports ops.
Hypothesis stays : keeps_running ops.

Lemma tick_within_deadline s :
  runExp ops (Arm.transport s) = true ->
  in_range Arm.ULONG_BITS (lTime (_benchData (Arm.transport s)) + Arm.lDt) ->
  in_range Arm.ULONG_BITS (keepaliveTime (Arm.transport s) + T) ->
  lTime (_benchData (Arm.transport s)) + Arm.lDt
    <= keepaliveTime (Arm.transport s) + T ->
  reset_called (events_of (Arm.fContLoop_with ops T s)) = false /\
  runExp ops (Arm.transport (state_of (Arm.fContLoop_with ops T s))) = true /\
  lTime (_benchData (Arm.transport (state_of (Arm.fContLoop_with ops T s))))
    = lTime (_benchData (Arm.transport s)) + Arm.lDt /\
  keepaliveTime (Arm.transport (state_of (Arm.fContLoop_with ops T s)))
    = keepaliveTime (Arm.transport s) /\
  Arm.conversions (state_of (Arm.fContLoop_with ops T s))
    = S (S (Arm.conversions s)).
Proof.
  intros Hrun Hl Hk Hle.
  assert (Hcalled : reset_called (events_of (Arm.fContLoop_with ops T s)) = false).
  { rewrite embedded_reset_called by assumption.
    apply not_true_is_false. rewrite expired_iff by assumption.
    rewrite !wrap_small by assumption. lia. }
  destruct (embedded_tick_state ops T s reports) as [_ Hst].
  destruct (reported_time ops reports s) as [Hnow Hlast].
  destruct (arm_tick_running_globals ops T s Hrun) as (_ & Hconv & _).
  rewrite (Hst Hrun), Hcalled, Hnow, Hlast.
  split; [reflexivity | ]. split.
  - unfold Arm.reported, Arm.advance. now rewrite stays.
  - split; [now apply wrap_small | ]. split; [reflexivity | exact Hconv].
Qed.

Lemma tick_past_deadline s :
  runExp ops (Arm.transport s) = true ->
  in_range Arm.ULONG_BITS (lTime (_benchData (Arm.transport s)) + Arm.lDt) ->
  in_range Arm.ULONG_BITS (keepaliveTime (Arm.transport s) + T) ->
  lTime (_benchData (Arm.transport s)) + Arm.lDt
    > keepaliveTime (Arm.transport s) + T ->
  reset_called (events_of (Arm.fContLoop_with ops T s)) = true.
Proof.
  intros Hrun Hl Hk Hgt.
  rewrite embedded_reset_called by assumption.
  rewrite expired_iff by assumption.
  rewrite !wrap_small by assumption. lia.
Qed.

Lemma ticks_within_deadline (n : nat) : forall s,
  runExp ops (Arm.transport s) = true ->
  0 <= lTime (_benchData (Arm.transport s)) ->
  in_range Arm.ULONG_BITS (keepaliveTime (Arm.transport s) + T) ->
  in_range Arm.ULONG_BITS
    (lTime (_benchData (Arm.transport s)) + Z.of_nat n * Arm.lDt) ->
  lTime (_benchData (Arm.transport s)) + Z.of_nat n * Arm.lDt
    <= keepaliveTime (Arm.transport s) + T ->
  reset_called (snd (Arm.ticks ops T n s)) = false /\
  runExp ops (Arm.transport (fst (Arm.ticks ops T n s))) = true /\
  lTime (_benchData (Arm.transport (fst (Arm.ticks ops T n s))))
    = lTime (_benchData (Arm.transport s)) + Z.of_nat n * Arm.lDt /\
  keepaliveTime (Arm.transport (fst (Arm.ticks ops T n s)))
    = keepaliveTime (Arm.transport s) /\
  Arm.conversions (fst (Arm.ticks ops T n s))
    = (Arm.conversions s + 2 * n)%nat.
Proof.
  induction n as [ | n IH]; intros s Hrun Hl0 Hk Hl Hdead.
  - cbn [Arm.ticks fst snd]. change (Z.of_nat 0) with 0.
    repeat split; try reflexivity; try assumption; lia.
  - rewrite Nat2Z.inj_succ in Hl, Hdead.
    destruct (tick_within_deadline s Hrun) as (Hc & Hr & Ht & Hka & Hconv);
      try (unfold in_range, Arm.lDt in *; lia).
    destruct (IH (state_of (Arm.fContLoop_with ops T s)))
      as (Hc1 & Hr1 & Ht1 & Hka1 & Hconv1).
    + exact Hr.
    + rewrite Ht. unfold Arm.lDt. lia.
    + now rewrite Hka.
    + rewrite Ht. unfold in_range, Arm.lDt in *. lia.
    + rewrite Ht, Hka. unfold Arm.lDt in *. lia.
    + cbn [Arm.ticks fst snd]. unfold reset_called in *.
      rewrite existsb_app, Hc, Hc1, Hr1, Ht1, Hka1, Hconv1, Ht, Hka, Hconv.
      repeat split; try reflexivity.
      * rewrite Nat2Z.inj_succ. unfold Arm.lDt. lia.
      * lia.
Qed.
End ArmTicks.

(** X6: while the experiment is not running, timer interrupts do nothing:
    after any number of ticks the whole sketch, transport included, is as
    it was, and each tick did no more than re-enable interrupts and ask
    [runExp]; no pin was driven, no conversion made, nothing sent, no
    keepalive checked. *)
Theorem X6_idle_ticks_do_nothing {P : Type}
    (ops : TransportOps spec_float P) (T : Z) (n : nat) (s : @Arm.Sketch P) :
  runExp ops (Arm.transport s) = false ->
  fst (Arm.ticks ops T n s) = s /\
  snd (Arm.ticks ops T n s) = concat (repeat [EvInterrupts; EvRunExp false] n) /\
  (forall e, In e (snd (Arm.ticks ops T n s)) ->
             e = EvInterrupts \/ e = EvRunExp false).
Proof.
  intros Hrun. rewrite ticks_idle by assumption. cbn [fst snd].
  split; [reflexivity | ]. split; [reflexivity | ].
  intros e He. apply in_concat in He. destruct He as (l & Hl & He).
  apply repeat_spec in Hl. subst l.
  destruct He as [<- | [<- | []]]; [now left | now right].
Qed.

Lemma X6_idle_ticks_do_nothing_witness :
  runExp SpecTransport.ops (Arm.transport (Examples.rig false 1000 0)) = false /\
  fst (Arm.ticks SpecTransport.ops Arm.lKeepalive 7 (Examples.rig false 1000 0))
    = Examples.rig false 1000 0.
Proof.
  split; [reflexivity | ].
  exact (proj1 (X6_idle_ticks_do_nothing SpecTransport.ops Arm.lKeepalive 7
                  (Examples.rig false 1000 0) eq_refl)).
Defined.

(** X7: the keepalive over a run of ticks.  Let the experiment run, let
    [sendData] leave time and keepalive stamp alone, and let nothing but
    commands and resets stop the experiment.  If the deadline
    [keepaliveTime + T] lies between the [n]-th and the [n+1]-st advance
    of the time (and no sum overflows), then [n] ticks pass without a
    reset, leaving the experiment running with the time advanced by
    [n * lDt], the keepalive stamp untouched and [2 n] conversions made;
    and the tick after them calls [reset].  So the experiment is stopped
    at the first tick whose time lies past the deadline, never before. *)
Theorem X7_reset_at_first_tick_past_deadline {P : Type}
    (ops : TransportOps spec_float P) (T : Z) (n : nat) (s : @Arm.Sketch P) :
  0 < T -> sendData_reports ops -> keeps_running ops ->
  runExp ops (Arm.transport s) = true ->
  0 <= lTime (_benchData (Arm.transport s)) ->
  in_range Arm.ULONG_BITS (keepaliveTime (Arm.transport s) + T) ->
  in_range Arm.ULONG_BITS
    (lTime (_benchData (Arm.transport s)) + (Z.of_nat n + 1) * Arm.lDt) ->
  lTime (_benchData (Arm.transport s)) + Z.of_nat n * Arm.lDt
    <= keepaliveTime (Arm.transport s) + T
    < lTime (_benchData (Arm.transport s)) + (Z.of_nat n + 1) * Arm.lDt ->
  reset_called (snd (Arm.ticks ops T n s)) = false /\
  runExp ops (Arm.transport (fst (Arm.ticks ops T n s))) = true /\
  lTime (_benchData (Arm.transport (fst (Arm.ticks ops T n s))))
    = lTime (_benchData (Arm.transport s)) + Z.of_nat n * Arm.lDt /\
  keepaliveTime (Arm.transport (fst (Arm.ticks ops T n s)))
    = keepaliveTime (Arm.transport s) /\
  Arm.conversions (fst (Arm.ticks ops T n s)) = (Arm.conversions s + 2 * n)%nat /\
  reset_called (snd (Arm.ticks ops T (S n) s)) = true.
Proof.
  intros HT Hrep Hstay Hrun Hl0 Hk Hl Hdead.
  destruct (ticks_within_deadline ops T HT Hrep Hstay n s Hrun Hl0 Hk)
    as (Hc & Hr & Ht & Hka & Hconv);
    try (unfold in_range, Arm.lDt in *; lia).
  repeat (split; [assumption | ]).
  rewrite ticks_snoc. cbn [snd]. unfold reset_called in *.
  rewrite existsb_app, Hc. cbn [orb].
  apply (tick_past_deadline ops T HT Hrep); try assumption.
  - rewrite Ht. unfold in_range, Arm.lDt in *. lia.
  - now rewrite Hka.
  - rewrite Ht, Hka. unfold Arm.lDt in *. lia.
Qed.

Lemma spec_keeps_running {D : Type} `{DoubleOps D} :
  keeps_running (SpecTransport.ops (D := D)).
Proof. intros t b td. reflexivity. Qed.

Lemma X7_reset_at_first_tick_past_deadline_witness :
  0 < Arm.lKeepalive /\
  sendData_reports (SpecTransport.ops (D := spec_float)) /\
  keeps_running (SpecTransport.ops (D := spec_float)) /\
  runExp SpecTransport.ops (Arm.transport (Examples.rig true 0 0)) = true /\
  0 <= lTime (_benchData (Arm.transport (Examples.rig true 0 0))) /\
  in_range Arm.ULONG_BITS
    (keepaliveTime (Arm.transport (Examples.rig true 0 0)) + Arm.lKeepalive) /\
  in_range Arm.ULONG_BITS
    (lTime (_benchData (Arm.transport (Examples.rig true 0 0)))
     + (Z.of_nat 5 + 1) * Arm.lDt) /\
  lTime (_benchData (Arm.transport (Examples.rig true 0 0))) + Z.of_nat 5 * Arm.lDt
    <= keepaliveTime (Arm.transport (Examples.rig true 0 0)) + Arm.lKeepalive
    < lTime (_benchData (Arm.transport (Examples.rig true 0 0)))
      + (Z.of_nat 5 + 1) * Arm.lDt /\
  reset_called
    (snd (Arm.ticks SpecTransport.ops Arm.lKeepalive 5 (Examples.rig true 0 0)))
    = false /\
  reset_called
    (snd (Arm.ticks SpecTransport.ops Arm.lKeepalive 6 (Examples.rig true 0 0)))
    = true.
Proof.
  assert (HT : 0 < Arm.lKeepalive) by reflexivity.
  assert (Hrep : sendData_reports (SpecTransport.ops (D := spec_float)))
    by (intros t; split; reflexivity).
  assert (Hstay : keeps_running (SpecTransport.ops (D := spec_float)))
    by (intros t b td; reflexivity).
  assert (Hl0 : 0 <= lTime (_benchData (Arm.transport (Examples.rig true 0 0))))
    by (simpl; lia).
  assert (Hk : in_range Arm.ULONG_BITS
            (keepaliveTime (Arm.transport (Examples.rig true 0 0)) + Arm.lKeepalive))
    by (unfold in_range; vm_compute; split; [discriminate | reflexivity]).
  assert (Hl : in_range Arm.ULONG_BITS
            (lTime (_benchData (Arm.transport (Examples.rig true 0 0)))
             + (Z.of_nat 5 + 1) * Arm.lDt))
    by (unfold in_range; vm_compute; split; [discriminate | reflexivity]).
  assert (Hdead :
    lTime (_benchData (Arm.transport (Examples.rig true 0 0))) + Z.of_nat 5 * Arm.lDt
      <= keepaliveTime (Arm.transport (Examples.rig true 0 0)) + Arm.lKeepalive
      < lTime (_benchData (Arm.transport (Examples.rig true 0 0)))
        + (Z.of_nat 5 + 1) * Arm.lDt)
    by (vm_compute; split; [discriminate | reflexivity]).
  destruct (X7_reset_at_first_tick_past_deadline SpecTransport.ops Arm.lKeepalive 5
              (Examples.rig true 0 0) HT Hrep Hstay eq_refl Hl0 Hk Hl Hdead)
    as (Hbefore & _ & _ & _ & _ & Hafter).
  split; [exact HT | ]. split; [exact Hrep | ]. split; [exact Hstay | ].
  split; [reflexivity | ]. split; [exact Hl0 | ]. split; [exact Hk | ].
  split; [exact Hl | ]. split; [exact Hdead | ].
  split; [exact Hbefore | exact Hafter].
Defined.

(** X8: what a running embedded tick hands to [sendData].  The tick
    itself changes of the transport only the elapsed time, which it
    advances, and [dOutput], where it puts the measurement made in this
    very tick; start and end time, start and end value, keepalive stamp
    and internals reach [sendData] as the tick found them.  The tick ends
    with the transport [sendData] returns, passed through [reset] if and
    only if [reset] was called. *)
Theorem X8_embedded_tick_anatomy {P : Type}
    (ops : TransportOps spec_float P) (T : Z) (s : @Arm.Sketch P) :
  runExp ops (Arm.transport s) = true ->
  exists pre,
    Arm.transport (state_of (Arm.fContLoop_with ops T s))
      = (if reset_called (events_of (Arm.fContLoop_with ops T s))
         then reset ops (sendData ops pre) else sendData ops pre) /\
    lTime (_benchData pre)
      = wrap Arm.ULONG_BITS (lTime (_benchData (Arm.transport s)) + Arm.lDt) /\
    _trajData pre
      = set_dOutput (_trajData (Arm.transport s))
          (Arm.widen (Arm.narrow
             (Arm.calibrate_x (Arm.adc s (S (Arm.conversions s)))))) /\
    keepaliveTime pre = keepaliveTime (Arm.transport s) /\
    internals pre = internals (Arm.transport s).
Proof.
  intros Hrun.
  destruct (arm_tick_running ops T s Hrun) as [Hev Hst].
  exists (set_trajData (Arm.advance (Arm.transport s))
            (set_dOutput (_trajData (Arm.transport s))
               (Arm.widen (value_of (Arm.Messung s))))).
  split.
  - rewrite Hst, Hev, Messung_run. unfold events_of, snd.
    unfold Arm.reported. rewrite Messung_run.
    destruct (Arm.expired _ _ _); reflexivity.
  - rewrite Messung_run. repeat split; reflexivity.
Qed.

Lemma X8_embedded_tick_anatomy_witness :
  runExp SpecTransport.ops (Arm.transport (Examples.rig true 300 0)) = true /\
  exists pre,
    Arm.transport
      (state_of (Arm.fContLoop_with SpecTransport.ops Arm.lKeepalive
                   (Examples.rig true 300 0)))
      = (if reset_called
              (events_of (Arm.fContLoop_with SpecTransport.ops Arm.lKeepalive
                            (Examples.rig true 300 0)))
         then reset SpecTransport.ops (sendData SpecTransport.ops pre)
         else sendData SpecTransport.ops pre) /\
    keepaliveTime pre = keepaliveTime (Arm.transport (Examples.rig true 300 0)).
Proof.
  split; [reflexivity | ].
  destruct (X8_embedded_tick_anatomy SpecTransport.ops Arm.lKeepalive
              (Examples.rig true 300 0) eq_refl) as (pre & Hst & _ & _ & Hk & _).
  exists pre. split; [exact Hst | exact Hk].
Defined.

(** * The measurement over the range of the converter *)

Lemma readings_complete (v : Z) : 0 <= v < 4096 -> In v Arm.readings.
Proof.
  intros Hv. unfold Arm.readings, Arm.ADC_LEVELS.
  apply in_map_iff. exists (Z.to_nat v). split; [lia | ].
  apply in_seq. lia.
Qed.

Lemma Qltb_lt (a b : Q) : Arm.Qltb a b = true <-> (a < b)%Q.
Proof. unfold Arm.Qltb, Qlt. apply Z.ltb_lt. Qed.

Lemma below_spec (f g : spec_float) :
  Arm.below f g = true <->
  exists a b, Binary64.to_Q f = Some a /\ Binary64.to_Q g = Some b /\ (a < b)%Q.
Proof.
  unfold Arm.below. split.
  - destruct (Binary64.to_Q f) as [a | ]; [ | discriminate].
    destruct (Binary64.to_Q g) as [b | ]; [ | discriminate].
    intros Hlt. exists a, b. repeat split. now apply Qltb_lt.
  - intros (a & b & -> & -> & Hlt). now apply Qltb_lt.
Qed.

Lemma below_trans (f g h : spec_float) :
  Arm.below f g = true -> Arm.below g h = true -> Arm.below f h = true.
Proof.
  rewrite !below_spec.
  intros (a & b & Ha & Hb & Hab) (b' & c & Hb' & Hc & Hbc).
  rewrite Hb in Hb'. injection Hb' as <-.
  exists a, c. repeat split; try assumption. now apply Qlt_trans with b.
Qed.

Lemma within_spec (eps : Q) (f : spec_float) (q : Q) :
  Arm.within eps f q = true <->
  exists a, Binary64.to_Q f = Some a /\ (Qabs (a - q) < eps)%Q.
Proof.
  unfold Arm.within. split.
  - destruct (Binary64.to_Q f) as [a | ]; [ | discriminate].
    intros Hlt. exists a. split; [reflexivity | now apply Qltb_lt].
  - intros (a & -> & Hlt). now apply Qltb_lt.
Qed.

(** The three facts below are checked on each of the 4096 readings. *)
Lemma output_falls_stepwise :
  forallb (fun v => Arm.below
                      (Arm.widen (Arm.narrow (Arm.calibrate_x (v + 1))))
                      (Arm.widen (Arm.narrow (Arm.calibrate_x v))))
          Arm.readings = true.
Proof. vm_compute. reflexivity. Qed.

Lemma output_accurate :
  forallb (fun v => Arm.within (1 # 10000000)
                      (Arm.widen (Arm.narrow (Arm.calibrate_x v))) (Arm.exact_x v))
          Arm.readings = true.
Proof. vm_compute. reflexivity. Qed.

Lemma y_accurate :
  forallb (fun v => Arm.within (1 # 1000000000000000)
                      (Arm.calibrate_y v) (Arm.exact_y v))
          Arm.readings = true.
Proof. vm_compute. reflexivity. Qed.

Lemma output_falls (n : nat) : forall v,
  0 <= v -> v + Z.of_nat n + 1 < 4096 ->
  Arm.below (Arm.widen (Arm.narrow (Arm.calibrate_x (v + Z.of_nat n + 1))))
            (Arm.widen (Arm.narrow (Arm.calibrate_x v))) = true.
Proof.
  pose proof (proj1 (forallb_forall _ _) output_falls_stepwise) as Hstep.
  cbv beta in Hstep.
  induction n as [ | n IH]; intros v Hv Hmax.
  - change (Z.of_nat 0) with 0. rewrite Z.add_0_r.
    apply Hstep, readings_complete. lia.
  - rewrite Nat2Z.inj_succ in *.
    apply below_trans
      with (Arm.widen (Arm.narrow (Arm.calibrate_x (v + Z.of_nat n + 1)))).
    + replace (v + Z.succ (Z.of_nat n) + 1) with (v + Z.of_nat n + 1 + 1) by lia.
      apply Hstep, readings_complete. lia.
    + apply IH; lia.
Qed.

(** X9: the measurement keeps the resolution of the converter.  For two
    calls of the embedded [fTrajectory] whose second conversions give
    readings [r < r'] of the 12-bit range, both values written to
    [dOutput] are finite numbers and the one for [r'] is strictly smaller:
    the position falls as the reading rises, and the rounding to [float]
    merges no two readings. *)
Theorem X9_measurement_keeps_resolution {P : Type}
    (s s' : @Arm.Sketch P) (b b' : benchData) (td td' : trajData spec_float) :
  0 <= Arm.adc s (S (Arm.conversions s)) ->
  Arm.adc s (S (Arm.conversions s)) < Arm.adc s' (S (Arm.conversions s')) ->
  Arm.adc s' (S (Arm.conversions s')) < 4096 ->
  exists a a',
    Binary64.to_Q (dOutput (snd (value_of (Arm.fTrajectory b td s)))) = Some a /\
    Binary64.to_Q (dOutput (snd (value_of (Arm.fTrajectory b' td' s')))) = Some a' /\
    (a' < a)%Q.
Proof.
  intros H0 Hlt Hmax.
  rewrite !fTrajectory_run, !Messung_run. cbv zeta.
  unfold value_of. cbn [fst snd dOutput set_dOutput].
  set (r := Arm.adc s (S (Arm.conversions s))) in *.
  set (r' := Arm.adc s' (S (Arm.conversions s'))) in *.
  pose proof (output_falls (Z.to_nat (r' - r - 1)) r H0 ltac:(lia)) as Hb.
  replace (r + Z.of_nat (Z.to_nat (r' - r - 1)) + 1) with r' in Hb by lia.
  apply below_spec in Hb. destruct Hb as (a' & a & Ha' & Ha & Hlt').
  exists a, a'. repeat split; assumption.
Qed.

Lemma X9_measurement_keeps_resolution_witness :
  0 <= Arm.adc (Examples.sketch_reading 300)
         (S (Arm.conversions (Examples.sketch_reading 300))) /\
  Arm.adc (Examples.sketch_reading 300)
    (S (Arm.conversions (Examples.sketch_reading 300)))
  < Arm.adc (Examples.sketch_reading 700)
      (S (Arm.conversions (Examples.sketch_reading 700))) /\
  Arm.adc (Examples.sketch_reading 700)
    (S (Arm.conversions (Examples.sketch_reading 700))) < 4096 /\
  exists a a',
    Binary64.to_Q (dOutput (snd (value_of
       (Arm.fTrajectory (mkBench 0) Examples.ramp_1_4 (Examples.sketch_reading 300)))))
      = Some a /\
    Binary64.to_Q (dOutput (snd (value_of
       (Arm.fTrajectory (mkBench 0) Examples.ramp_1_4 (Examples.sketch_reading 700)))))
      = Some a' /\
    (a' < a)%Q.
Proof.
  assert (H0 : 0 <= Arm.adc (Examples.sketch_reading 300)
                      (S (Arm.conversions (Examples.sketch_reading 300))))
    by (simpl; lia).
  assert (Hlt : Arm.adc (Examples.sketch_reading 300)
                  (S (Arm.conversions (Examples.sketch_reading 300)))
                < Arm.adc (Examples.sketch_reading 700)
                    (S (Arm.conversions (Examples.sketch_reading 700))))
    by (simpl; lia).
  assert (Hmax : Arm.adc (Examples.sketch_reading 700)
                   (S (Arm.conversions (Examples.sketch_reading 700))) < 4096)
    by (simpl; lia).
  split; [exact H0 | ]. split; [exact Hlt | ]. split; [exact Hmax | ].
  exact (X9_measurement_keeps_resolution
           (Examples.sketch_reading 300) (Examples.sketch_reading 700)
           (mkBench 0) (mkBench 0) Examples.ramp_1_4 Examples.ramp_1_4
           H0 Hlt Hmax).
Defined.

(** X10: the measurement is accurate.  When both conversions of a call
    give readings of the 12-bit range, the value written to [dOutput]
    differs from the exact value of the x calibration on the second
    reading by less than 10^-7, the price of returning it as a [float];
    and the global [y] differs from the exact value of the y calibration
    on the first reading by less than 10^-15.  Neither is ever infinite
    or NaN. *)
Theorem X10_measurement_is_accurate {P : Type}
    (s : @Arm.Sketch P) (b : benchData) (td : trajData spec_float) :
  0 <= Arm.adc s (Arm.conversions s) < 4096 ->
  0 <= Arm.adc s (S (Arm.conversions s)) < 4096 ->
  exists a c,
    Binary64.to_Q (dOutput (snd (value_of (Arm.fTrajectory b td s)))) = Some a /\
    (Qabs (a - Arm.exact_x (Arm.adc s (S (Arm.conversions s)))) < 1 # 10000000)%Q /\
    Binary64.to_Q (Arm.y (state_of (Arm.fTrajectory b td s))) = Some c /\
    (Qabs (c - Arm.exact_y (Arm.adc s (Arm.conversions s)))
       < 1 # 1000000000000000)%Q.
Proof.
  intros H1 H2.
  rewrite !fTrajectory_run, !Messung_run. cbv zeta.
  unfold value_of, state_of. cbn [fst snd dOutput set_dOutput Arm.set_x Arm.y].
  pose proof (proj1 (forallb_forall _ _) output_accurate _
                (readings_complete _ H2)) as Hx.
  pose proof (proj1 (forallb_forall _ _) y_accurate _
                (readings_complete _ H1)) as Hy.
  cbv beta in Hx, Hy.
  apply within_spec in Hx. apply within_spec in Hy.
  destruct Hx as (a & Ha & Hxa). destruct Hy as (c & Hc & Hyc).
  exists a, c. repeat split; assumption.
Qed.

Lemma X10_measurement_is_accurate_witness :
  0 <= Arm.adc (Examples.sketch_readings 400 500)
         (Arm.conversions (Examples.sketch_readings 400 500)) < 4096 /\
  0 <= Arm.adc (Examples.sketch_readings 400 500)
         (S (Arm.conversions (Examples.sketch_readings 400 500))) < 4096 /\
  exists a c,
    Binary64.to_Q (dOutput (snd (value_of
       (Arm.fTrajectory (mkBench 0) Examples.ramp_1_4
          (Examples.sketch_readings 400 500))))) = Some a /\
    (Qabs (a - Arm.exact_x 500) < 1 # 10000000)%Q /\
    Binary64.to_Q (Arm.y (state_of
       (Arm.fTrajectory (mkBench 0) Examples.ramp_1_4
          (Examples.sketch_readings 400 500)))) = Some c /\
    (Qabs (c - Arm.exact_y 400) < 1 # 1000000000000000)%Q.
Proof.
  assert (H1 : 0 <= Arm.adc (Examples.sketch_readings 400 500)
                      (Arm.conversions (Examples.sketch_readings 400 500)) < 4096)
    by (simpl; lia).
  assert (H2 : 0 <= Arm.adc (Examples.sketch_readings 400 500)
                      (S (Arm.conversions (Examples.sketch_readings 400 500))) < 4096)
    by (simpl; lia).
  split; [exact H1 | ]. split; [exact H2 | ].
  exact (X10_measurement_is_accurate (Examples.sketch_readings 400 500)
           (mkBench 0) Examples.ramp_1_4 H1 H2).
Defined.

(** * The status LED *)

(** X11: [blink] toggles.  After [n] calls [ledOn] is back at its value
    when [n] is even and at the opposite value when [n] is odd, and the
    levels written to the LED alternate, starting with the opposite of
    the initial [ledOn]. *)
Theorem X11_blink_toggles (n : nat) : forall ledOn : bool,
  fst (Arm.blinks n ledOn) = (if Nat.even n then ledOn else negb ledOn) /\
  snd (Arm.blinks n ledOn)
    = map (fun k => Arm.LedWrite Arm.LED_BUILTIN
                      (if Nat.even k then negb ledOn else ledOn))
          (seq 0 n).
Proof.
  induction n as [ | n IH]; intros ledOn; [split; reflexivity | ].
  destruct (IH (negb ledOn)) as [Hstate Hwrites].
  cbn [Arm.blinks Arm.blink fst snd]. split.
  - rewrite Hstate, Nat.even_succ, <- Nat.negb_even.
    destruct (Nat.even n); [reflexivity | now rewrite negb_involutive].
  - rewrite Hwrites. cbn [seq map app Nat.even].
    f_equal. rewrite <- seq_shift, map_map.
    apply map_ext. intros k.
    rewrite Nat.even_succ, <- Nat.negb_even, negb_involutive.
    destruct (Nat.even k); reflexivity.
Qed.

Section Block.
Variable i : Z.

Lemma block_from_while (n : nat) :
  Arm.block_from i n Arm.AtWhile = (Arm.AtWhile, []).
Proof.
  induction n as [ | n IH]; [reflexivity | ].
  cbn [Arm.block_from Arm.block_step fst snd]. now rewrite IH.
Qed.

Lemma block_from_for (n : nat) : forall k,
  Arm.block_from i n (Arm.AtFor k) =
    if (n <=? Z.to_nat (i - k))%nat
    then (Arm.AtFor (k + Z.of_nat n), concat (repeat Arm.flash n))
    else (Arm.AtWhile, concat (repeat Arm.flash (Z.to_nat (i - k)))).
Proof.
  induction n as [ | n IH]; intros k.
  - cbn [Arm.block_from Nat.leb repeat concat]. now rewrite Z.add_0_r.
  - cbn [Arm.block_from Arm.block_step].
    destruct (Z.ltb_spec k i) as [Hlt | Hge].
    + cbn [fst snd]. rewrite IH.
      replace (Z.to_nat (i - k)) with (S (Z.to_nat (i - (k + 1)))) by lia.
      cbn [Nat.leb repeat concat].
      destruct (n <=? Z.to_nat (i - (k + 1)))%nat; cbn [fst snd].
      * f_equal. f_equal. lia.
      * reflexivity.
    + cbn [fst snd]. rewrite block_from_while.
      replace (Z.to_nat (i - k)) with 0%nat by lia.
      reflexivity.
Qed.
End Block.

(** X12: [block(i)] never returns.  However long it runs, control does
    not reach the end of the function.  It sets the LED pin to output,
    switches the LED on for a second and off again [i] times (not at all
    when [i <= 0]), the next flash following the previous one without a
    pause, and then stays in the empty loop, the LED off, doing nothing
    any more. *)
Theorem X12_block_never_returns (i : Z) (steps : nat) :
  fst (Arm.block i steps) <> Arm.BlockReturned /\
  ((steps <= Z.to_nat i)%nat ->
     Arm.block i steps
       = (Arm.AtFor (Z.of_nat steps),
          Arm.LedPinMode Arm.LED_BUILTIN Arm.OUTPUT
          :: concat (repeat Arm.flash steps))) /\
  ((Z.to_nat i < steps)%nat ->
     Arm.block i steps
       = (Arm.AtWhile,
          Arm.LedPinMode Arm.LED_BUILTIN Arm.OUTPUT
          :: concat (repeat Arm.flash (Z.to_nat i)))).
Proof.
  unfold Arm.block. rewrite block_from_for, Z.sub_0_r, Z.add_0_l.
  destruct (Nat.leb_spec steps (Z.to_nat i)) as [Hle | Hgt]; cbn [fst snd].
  - split; [discriminate | ]. split; [reflexivity | lia].
  - split; [discriminate | ]. split; [lia | reflexivity].
Qed.

Lemma X12_block_never_returns_witness :
  (Z.to_nat 2 < 5)%nat /\
  Arm.block 2 5
    = (Arm.AtWhile,
       Arm.LedPinMode Arm.LED_BUILTIN Arm.OUTPUT
       :: concat (repeat Arm.flash (Z.to_nat 2))).
Proof.
  assert (Hlt : (Z.to_nat 2 < 5)%nat) by (simpl; lia).
  split; [exact Hlt | ].
  exact (proj2 (proj2 (X12_block_never_returns 2 5)) Hlt).
Defined.

(** * A flat descriptor in binary64 *)

Lemma SFsub_same (s : bool) (m : positive) (e : Z) :
  SFsub Binary64.prec Binary64.emax (S754_finite s m e) (S754_finite s m e)
    = S754_zero false.
Proof. unfold SFsub. rewrite Z.sub_diag. reflexivity. Qed.

Lemma digits2_pos_shifted (k p : positive) :
  digits2_pos (Pos.iter xO p k) = (digits2_pos p + k)%positive.
Proof.
  induction k as [ | k IH] using Pos.peano_ind.
  - cbn. lia.
  - rewrite Pos.iter_succ. cbn [digits2_pos]. rewrite IH. lia.
Qed.

(** An integer below 2^53 converts to a finite positive [double]. *)
Lemma of_Z_finite (z : Z) :
  0 < z < 2 ^ 53 -> exists m e, Binary64.of_Z z = S754_finite false m e.
Proof.
  intros [Hpos Hlt]. destruct z as [ | p | p]; try lia.
  assert (Hd : Zpos (digits2_pos p) <= 53).
  { pose proof (digits2_pos_lower p) as Hl.
    destruct (Z_le_gt_dec (Zpos (digits2_pos p)) 53) as [Hle | Hgt]; [exact Hle | ].
    assert (2 ^ 53 <= 2 ^ (Zpos (digits2_pos p) - 1))
      by (apply Z.pow_le_mono_r; lia).
    lia. }
  unfold Binary64.of_Z, binary_normalize, binary_round.
  rewrite Z.add_0_r.
  assert (Hf : fexp Binary64.prec Binary64.emax (Zpos (digits2_pos p))
               = Zpos (digits2_pos p) - 53).
  { unfold fexp, emin, Binary64.prec, Binary64.emax. lia. }
  rewrite Hf. unfold shl_align.
  destruct (Zpos (digits2_pos p) - 53 - 0) as [ | q | q] eqn:Hq; try lia.
  - unfold binary_round_aux, shr_fexp. cbn [Zdigits2 shr_record_of_loc].
    assert (Hf0 : fexp Binary64.prec Binary64.emax (Zpos (digits2_pos p) + 0) - 0 = 0).
    { unfold fexp, emin, Binary64.prec, Binary64.emax. lia. }
    rewrite Hf0.
    cbn [shr shr_m loc_of_shr_record round_nearest_even Zdigits2 shr_record_of_loc].
    rewrite Hf0. cbn [shr shr_m].
    eexists. eexists. reflexivity.
  - unfold binary_round_aux, shr_fexp. cbn [Zdigits2 shr_record_of_loc].
    rewrite digits2_pos_shifted.
    assert (Hf0 : fexp Binary64.prec Binary64.emax
                    (Zpos (digits2_pos p + q) + (Zpos (digits2_pos p) - 53))
                  - (Zpos (digits2_pos p) - 53) = 0).
    { unfold fexp, emin, Binary64.prec, Binary64.emax. lia. }
    rewrite Hf0.
    cbn [shr shr_m loc_of_shr_record round_nearest_even Zdigits2 shr_record_of_loc].
    rewrite digits2_pos_shifted, Hf0. cbn [shr shr_m].
    assert (Hle : (Zpos (digits2_pos p) - 53 <=? Binary64.emax - Binary64.prec) = true)
      by (apply Z.leb_le; unfold Binary64.emax, Binary64.prec; lia).
    rewrite Hle. eexists. eexists. reflexivity.
Qed.

Lemma of_Z_nonnegative (z : Z) :
  0 <= z < 2 ^ 53 ->
  Binary64.of_Z z = S754_zero false \/
  exists m e, Binary64.of_Z z = S754_finite false m e.
Proof.
  intros Hz. destruct (Z.eq_dec z 0) as [-> | Hnz].
  - left. reflexivity.
  - right. apply of_Z_finite. lia.
Qed.

(** X3: in binary64, a descriptor whose start and end value are the same
    finite number commands exactly that number at every elapsed time, the
    interpolation branch included: there the slope is +0.0, the intercept
    is the value itself, and no operation rounds.  (Times are taken below
    2^53, where they convert to [double] without rounding; the value may
    be any finite [double] or +0.0.) *)
Theorem X3_flat_descriptor_is_exact
    (w : Z) (b : benchData) (td : trajData spec_float) (v : spec_float) :
  in_range w (lStartTime td) -> in_range w (lEndTime td) ->
  lEndTime td < 2 ^ 53 -> 0 <= lTime b ->
  dStartValue td = v -> dEndValue td = v ->
  (v = S754_zero false \/ exists s m e, v = S754_finite s m e) ->
  Host.commanded w b td = v.
Proof.
  intros Hs He Hbig Ht Hsv Hev Hv.
  destruct (fTrajectory_cases b td) as [Hc | [Hc | [Hc1 Hc2]]].
  - unfold Host.commanded. now rewrite fTrajectory_hold.
  - unfold Host.commanded. rewrite fTrajectory_ramp by assumption.
    cbv zeta. cbn [traj_after dOutput set_dOutput].
    rewrite wrap_small by (unfold in_range in *; lia).
    rewrite Hsv, Hev.
    cbn [dadd dsub dmul ddiv of_ulong binary64_ops].
    destruct (of_Z_finite (lEndTime td - lStartTime td)) as (mn & en & Hn);
      [unfold in_range in *; lia | ].
    destruct (of_Z_finite (lEndTime td)) as (me & ee & Hend);
      [unfold in_range in *; lia | ].
    rewrite Hn, Hend.
    assert (Hdiff : SFsub Binary64.prec Binary64.emax v v = S754_zero false).
    { destruct Hv as [-> | (s & m & e & ->)]; [reflexivity | apply SFsub_same]. }
    rewrite Hdiff. cbn [SFdiv SFmul xorb].
    assert (HdN : SFsub Binary64.prec Binary64.emax v (S754_zero false) = v).
    { destruct Hv as [-> | (s & m & e & ->)]; reflexivity. }
    rewrite HdN.
    destruct (of_Z_nonnegative (lTime b)) as [Hnow | (mt & et & Hnow)];
      [lia | | ]; rewrite Hnow; cbn [SFmul xorb];
      destruct Hv as [-> | (s & m & e & ->)]; reflexivity.
  - unfold Host.commanded. now rewrite fTrajectory_post.
Qed.

Lemma X3_flat_descriptor_is_exact_witness :
  in_range 64 (lStartTime (mkTraj Arm.milli 1 Arm.milli 4 Examples.zero)) /\
  in_range 64 (lEndTime (mkTraj Arm.milli 1 Arm.milli 4 Examples.zero)) /\
  lEndTime (mkTraj Arm.milli 1 Arm.milli 4 Examples.zero) < 2 ^ 53 /\
  0 <= lTime (mkBench 2) /\
  Host.commanded 64 (mkBench 2) (mkTraj Arm.milli 1 Arm.milli 4 Examples.zero)
    = Arm.milli.
Proof.
  assert (Hs : in_range 64 (lStartTime (mkTraj Arm.milli 1 Arm.milli 4 Examples.zero)))
    by (unfold in_range; simpl; lia).
  assert (He : in_range 64 (lEndTime (mkTraj Arm.milli 1 Arm.milli 4 Examples.zero)))
    by (unfold in_range; simpl; lia).
  assert (Hbig : lEndTime (mkTraj Arm.milli 1 Arm.milli 4 Examples.zero) < 2 ^ 53)
    by (simpl; lia).
  assert (Ht : 0 <= lTime (mkBench 2)) by (simpl; lia).
  split; [exact Hs | ]. split; [exact He | ]. split; [exact Hbig | ].
  split; [exact Ht | ].
  apply (X3_flat_descriptor_is_exact 64 (mkBench 2)
           (mkTraj Arm.milli 1 Arm.milli 4 Examples.zero) Arm.milli
           Hs He Hbig Ht eq_refl eq_refl).
  right. vm_compute. eexists. eexists. eexists. reflexivity.
Defined.
